(** * download-SEC-data: company index, interactive search, rate-limited client

    A shallow embedding of the parts of the repository that the specification
    makes checkable statements about:

    - [searchSecCompanies.py]: [createHashIndexes], [searchByTicker],
      [searchByCik], [searchByTitle], [parseSearchResults], [searchCompany]
      and [handleSearchResults];
    - [makeRequest.py]: [RateLimiter], [EdgarClient] and [makeRequest];
    - [requestCompanyFacts.py]: [updateFyAndFrameCols].

    Conventions of the embedding.

    - A Python [str] is a [string]; the character predicates and [lower] are
      the ASCII ones (text outside ASCII is left alone by [lower] and is
      neither a digit nor a letter).
    - A Python [dict] is an association list with distinct keys, kept in
      insertion order, which is the order [items()] iterates in.
    - A function that can raise returns a [Result]; [print] appends a line to
      the output carried next to the result; [input] takes the next line of a
      list of pending lines and raises [EOFError] when there is none.
    - [time.time()] readings are integers (clock ticks); [time.sleep] and
      [clearTerminal] have no effect on the values computed and are dropped. *)

From Stdlib Require Import ZArith String Ascii List Bool Lia DecimalString.
From Stdlib Require Import Sorted Permutation.
Import ListNotations.
Open Scope string_scope.
Open Scope list_scope.

(** ** Python values used by the program *)

Module Py.

(** Exceptions the modelled functions raise. *)
Inductive Exn : Type :=
| TypeError
| ValueError
| IndexError
| EOFError
| JSONDecodeError.

Inductive Result (A : Type) : Type :=
| Return (a : A)
| Raise (e : Exn).
Arguments Return {A} a.
Arguments Raise {A} e.

(** A value that is either an [int] or a [str] (the SEC file stores
    [cik_str] as a number, the docstrings describe it as a string). *)
Inductive Val : Type :=
| VInt (z : Z)
| VStr (s : string).

(** [str(v)] *)
Definition str (v : Val) : string :=
  match v with
  | VInt z => NilZero.string_of_int (Z.to_int z)
  | VStr s => s
  end.

(** [v == s] for a string literal [s]: an [int] never equals a [str]. *)
Definition eq_str (v : Val) (s : string) : bool :=
  match v with
  | VInt _ => false
  | VStr t => String.eqb t s
  end.

Definition code (c : ascii) : nat := nat_of_ascii c.

Definition between (lo hi n : nat) : bool := (lo <=? n)%nat && (n <=? hi)%nat.

Definition is_digit (c : ascii) : bool := between 48 57 (code c).
Definition is_upper (c : ascii) : bool := between 65 90 (code c).
Definition is_lower (c : ascii) : bool := between 97 122 (code c).
Definition is_alpha (c : ascii) : bool := is_upper c || is_lower c.
Definition is_alnum (c : ascii) : bool := is_alpha c || is_digit c.

(** ASCII white space as [str.strip()] sees it: TAB, LF, VT, FF, CR, FS, GS,
    RS, US and the space. *)
Definition is_space (c : ascii) : bool :=
  between 9 13 (code c) || between 28 32 (code c).

Definition lower_char (c : ascii) : ascii :=
  if is_upper c then ascii_of_nat (code c + 32) else c.

Fixpoint all_chars (p : ascii -> bool) (s : string) : bool :=
  match s with
  | EmptyString => true
  | String c s' => p c && all_chars p s'
  end.

Definition nonempty (s : string) : bool :=
  match s with EmptyString => false | String _ _ => true end.

(** [s.lower()] *)
Fixpoint lower (s : string) : string :=
  match s with
  | EmptyString => EmptyString
  | String c s' => String (lower_char c) (lower s')
  end.

(** [s.isdigit()], [s.isalpha()], [s.isalnum()]: false on the empty string. *)
Definition isdigit (s : string) : bool := nonempty s && all_chars is_digit s.
Definition isalpha (s : string) : bool := nonempty s && all_chars is_alpha s.
Definition isalnum (s : string) : bool := nonempty s && all_chars is_alnum s.

Fixpoint lstrip (s : string) : string :=
  match s with
  | EmptyString => EmptyString
  | String c s' => if is_space c then lstrip s' else s
  end.

Fixpoint rstrip (s : string) : string :=
  match s with
  | EmptyString => EmptyString
  | String c s' =>
      match rstrip s' with
      | EmptyString => if is_space c then EmptyString else String c EmptyString
      | r => String c r
      end
  end.

(** [s.strip()] *)
Definition strip (s : string) : string := rstrip (lstrip s).

(** [sub in s] *)
Fixpoint contains (sub s : string) : bool :=
  String.prefix sub s ||
  match s with
  | EmptyString => false
  | String _ s' => contains sub s'
  end.

(** [s[i:j]] for [0 <= i <= j]. *)
Definition slice (i j : nat) (s : string) : string := String.substring i (j - i) s.

Definition digit_val (c : ascii) : Z := Z.of_nat (code c - 48).

(** Digits of a decimal literal: groups of digits separated by single
    underscores, as [int()] accepts them. [prev] tells whether the previous
    character was a digit. *)
Fixpoint int_digits (s : string) (acc : Z) (prev : bool) : option Z :=
  match s with
  | EmptyString => if prev then Some acc else None
  | String c s' =>
      if is_digit c then int_digits s' (10 * acc + digit_val c)%Z true
      else if Ascii.eqb c "_"%char && prev then int_digits s' acc false
      else None
  end.

(** White space that [int()] skips around the literal in an ASCII text:
    TAB, LF, VT, FF, CR and the space (FS, GS, RS and US are not skipped). *)
Definition is_int_space (c : ascii) : bool :=
  between 9 13 (code c) || between 32 32 (code c).

Fixpoint int_lstrip (s : string) : string :=
  match s with
  | EmptyString => EmptyString
  | String c s' => if is_int_space c then int_lstrip s' else s
  end.

Fixpoint int_rstrip (s : string) : string :=
  match s with
  | EmptyString => EmptyString
  | String c s' =>
      match int_rstrip s' with
      | EmptyString => if is_int_space c then EmptyString else String c EmptyString
      | r => String c r
      end
  end.

(** Number of digits of a text (underscores, sign and white space do not
    count). *)
Fixpoint digitCount (s : string) : Z :=
  match s with
  | EmptyString => 0%Z
  | String c s' => ((if is_digit c then 1 else 0) + digitCount s')%Z
  end.

(** The default of [sys.int_max_str_digits]: [int()] refuses a literal with
    more digits. *)
Definition maxStrDigits : Z := 4300%Z.

(** [int(s)] on a string: [None] stands for [ValueError]. *)
Definition int (s : string) : option Z :=
  if (digitCount s <=? maxStrDigits)%Z then
    match int_rstrip (int_lstrip s) with
    | String "+"%char d => int_digits d 0%Z false
    | String "-"%char d => option_map Z.opp (int_digits d 0%Z false)
    | d => int_digits d 0%Z false
    end
  else None.

(** [str(n)] for a natural number, used by the f-strings. *)
Definition str_nat (n : nat) : string := NilZero.string_of_uint (Nat.to_uint n).

(** A [dict] with string keys, in insertion order. *)
Definition dict (V : Type) : Type := list (string * V).

(** [d.get(k, None)] *)
Fixpoint get {V : Type} (d : dict V) (k : string) : option V :=
  match d with
  | [] => None
  | (k', v) :: d' => if String.eqb k' k then Some v else get d' k
  end.

(** [d.setdefault(k, []).append(x)]: the bucket of an existing key grows in
    place, a new key is added after the others. *)
Fixpoint setdefault_append {A : Type} (d : dict (list A)) (k : string) (x : A)
  : dict (list A) :=
  match d with
  | [] => [(k, [x])]
  | (k', b) :: d' =>
      if String.eqb k' k then (k', b ++ [x]) :: d'
      else (k', b) :: setdefault_append d' k x
  end.

(** Truth value of a [list or None] result: [None] and [[]] are false. *)
Definition truthy {A : Type} (r : option (list A)) : bool :=
  match r with
  | None => false
  | Some [] => false
  | Some (_ :: _) => true
  end.

End Py.

Import Py.

(** A computation that prints: the lines printed, then its value. *)
Definition Out (A : Type) : Type := (list string * A)%type.

Definition emit {A : Type} (lines : list string) (o : Out A) : Out A :=
  (lines ++ fst o, snd o).

(** ** searchSecCompanies.py: the company index *)

(** One entry of the downloaded company list:
    [{'cik_str': ..., 'ticker': ..., 'title': ...}]. *)
Record Company : Type := mkCompany {
  cik_str : Val;
  ticker : string;
  title : string
}.

(** A record stored in a bucket, or handed to [parseSearchResults]: a dict
    that may hold any of the keys ['title'], ['ticker'] and ['cik_str']. *)
Record Rec : Type := mkRec {
  r_title : option string;
  r_ticker : option string;
  r_cik_str : option Val
}.

Definition Index : Type := dict (list Rec).

(** The three dict literals of [createHashIndexes]. *)
Definition tickerEntry (company : Company) : Rec :=
  mkRec (Some (title company)) None (Some (cik_str company)).
Definition titleEntry (company : Company) : Rec :=
  mkRec None (Some (ticker company)) (Some (cik_str company)).
Definition cikEntry (company : Company) : Rec :=
  mkRec (Some (title company)) (Some (ticker company)) None.

(** Body of the loop of [createHashIndexes]. *)
Definition indexCompany (acc : Index * Index * Index) (item : string * Company)
  : Index * Index * Index :=
  let '(tickerIndex, titleIndex, cikIndex) := acc in
  let company := snd item in
  (setdefault_append tickerIndex (lower (ticker company)) (tickerEntry company),
   setdefault_append titleIndex (lower (title company)) (titleEntry company),
   setdefault_append cikIndex (str (cik_str company)) (cikEntry company)).

Definition createHashIndexes (companyData : dict Company) : Index * Index * Index :=
  fold_left indexCompany companyData ([], [], []).

Definition tickerIndexOf (companyData : dict Company) : Index :=
  fst (fst (createHashIndexes companyData)).
Definition titleIndexOf (companyData : dict Company) : Index :=
  snd (fst (createHashIndexes companyData)).
Definition cikIndexOf (companyData : dict Company) : Index :=
  snd (createHashIndexes companyData).

Definition searchByTicker (tickerIndex : Index) (tickerTarget : string)
  : option (list Rec) :=
  get tickerIndex (lower tickerTarget).

Definition searchByCik (cikIndex : Index) (cikTarget : string) : option (list Rec) :=
  get cikIndex cikTarget.

(** Body of the loop of [searchByTitle] (the definition with [partial], which
    replaces the two-argument one when the module is loaded). *)
Definition titleScan (titleTarget : string) (partial : bool)
  (result : list Rec) (item : string * list Rec) : list Rec :=
  let '(title, companies) := item in
  if partial then
    if contains titleTarget (lower title) then result ++ companies else result
  else
    if String.eqb titleTarget (lower title) then result ++ companies else result.

Definition searchByTitle (titleIndex : Index) (titleTarget : string) (partial : bool)
  : option (list Rec) :=
  match fold_left (titleScan titleTarget partial) titleIndex [] with
  | [] => None
  | result => Some result
  end.

(** ** searchSecCompanies.py: parsing and handling search results *)

(** What [parseSearchResults] returns besides [None]: a triple of strings, or
    a triple of tuples. *)
Inductive Parsed : Type :=
| Single (title ticker cik : string)
| Several (titles tickers ciks : list string).

(** Body of the loop of [parseSearchResults]. *)
Definition parseCompany (userInput : string)
  (acc : list string * list string * list string) (company : Rec)
  : list string * list string * list string :=
  let '(titles, tickers, ciks) := acc in
  let title := match r_title company with Some t => t | None => "N/A" end in
  let ticker := match r_ticker company with Some t => t | None => "N/A" end in
  let cik := match r_cik_str company with Some c => c | None => VStr "N/A" end in
  if String.eqb title "N/A" then
    (titles ++ [userInput], tickers ++ [ticker], ciks ++ [str cik])
  else if String.eqb ticker "N/A" then
    (titles ++ [title], tickers ++ [userInput], ciks ++ [str cik])
  else if eq_str cik "N/A" then
    (titles ++ [title], tickers ++ [ticker], ciks ++ [userInput])
  else acc.

Definition parseSearchResults (searchResults : option (list Rec)) (userInput : string)
  : Out (Result (option Parsed)) :=
  match searchResults with
  | None | Some [] => (["No companies found."], Return None)
  | Some records =>
      let '(titles, tickers, ciks) :=
        fold_left (parseCompany userInput) records ([], [], []) in
      if (length records =? 1)%nat then
        match titles, tickers, ciks with
        | t :: _, k :: _, c :: _ => ([], Return (Some (Single t k c)))
        | _, _, _ => ([], Raise IndexError)
        end
      else ([], Return (Some (Several titles tickers ciks)))
  end.

(** The two shapes in which the source calls [handleSearchResults]: with its
    five parameters (from [searchCompany]) and with two arguments (its own
    retry calls). The function declares five positional parameters without
    defaults. *)
Inductive CallArgs : Type :=
| Args5 (parsedResults : option Parsed) (tickerIndex titleIndex cikIndex : Index)
        (userInput : string)
| Args2 (a1 : option Parsed) (a2 : string).

(** The resolved company, or [None] when the function falls off its end. *)
Definition Answer : Type := option (string * string * string).

(** The line [f"{idx+1}. Title: ..., Ticker: ..., CIK: ..."]. *)
Definition candidateLine (idx : nat) (t k c : string) : string :=
  (str_nat (idx + 1) ++ ". Title: " ++ t ++ ", Ticker: " ++ k ++ ", CIK: " ++ c)%string.

(** The [for idx in range(len(parsedResults[0]))] loop that prints the
    candidates; indexing a shorter tuple raises [IndexError]. *)
Fixpoint candidateLines (idx : nat) (n : nat) (titles tickers ciks : list string)
  : Out (Result unit) :=
  match n with
  | O => ([], Return tt)
  | S n' =>
      match nth_error titles idx, nth_error tickers idx, nth_error ciks idx with
      | Some t, Some k, Some c =>
          emit [candidateLine idx t k c]
            (candidateLines (S idx) n' titles tickers ciks)
      | _, _, _ => ([], Raise IndexError)
      end
  end.

(** [try: block except ValueError: handler] *)
Definition tryExceptValueError {A : Type} (block : Out (Result A))
  (handler : Out (Result A)) : Out (Result A) :=
  match snd block with
  | Raise ValueError => emit (fst block) handler
  | _ => block
  end.

(** [handleSearchResults]. [research] is the call
    [searchCompany(tickerIndex, titleIndex, cikIndex)] of the no-result
    branch, run on the pending input (nothing is read between the entry of
    the function and that call); [stdin] holds the pending input lines. *)
Fixpoint handleSearchResults
  (research : Index -> Index -> Index -> Out (Result Answer))
  (args : CallArgs) (stdin : list string) {struct stdin} : Out (Result Answer) :=
  match args with
  | Args2 _ _ => ([], Raise TypeError)
  | Args5 parsedResults tickerIndex titleIndex cikIndex userInput =>
      match parsedResults with
      | None =>
          emit [("No companies found for '" ++ userInput ++ "'. Please try again.")%string]
            (research tickerIndex titleIndex cikIndex)
      | Some (Single t k c) => ([], Return (Some (t, k, c)))
      | Some (Several titles tickers ciks) =>
          if (1 <? length titles)%nat then
            emit ["Multiple companies found. Please choose one by entering the corresponding number:"]
              match candidateLines 0 (length titles) titles tickers ciks with
              | (lines, Raise e) => (lines, Raise e)
              | (lines, Return _) =>
                  emit lines
                    match stdin with
                    | [] => ([], Raise EOFError)
                    | line :: rest =>
                        tryExceptValueError
                          match int line with
                          | None => ([], Raise ValueError)
                          | Some selection =>
                              if ((1 <=? selection) && (selection <=? Z.of_nat (length titles)))%Z
                              then
                                let i := Z.to_nat (selection - 1) in
                                match nth_error titles i, nth_error tickers i,
                                      nth_error ciks i with
                                | Some t, Some k, Some c => ([], Return (Some (t, k, c)))
                                | _, _, _ => ([], Raise IndexError)
                                end
                              else
                                emit ["Invalid selection. Please try again."]
                                  (handleSearchResults research
                                     (Args2 parsedResults userInput) rest)
                          end
                          (emit ["Invalid input. Please enter a valid number."]
                             (handleSearchResults research
                                (Args2 parsedResults userInput) rest))
                    end
              end
          else ([], Return None)
      end
  end.

(** The branch of [searchCompany] that picks the index to search: the lines
    it prints and the [result] it hands to [parseSearchResults]. *)
Definition searchCompanyLookup (tickerIndex titleIndex cikIndex : Index)
  (userInput : string) : Out (option (list Rec)) :=
  if isdigit userInput then
    (["Searching by CIK..."], searchByCik cikIndex userInput)
  else if isalpha userInput || isalnum userInput then
    let result := searchByTicker tickerIndex (lower userInput) in
    if negb (truthy result) then
      (["Searching by ticker..."; "No ticker found, searching by title..."],
       searchByTitle titleIndex (lower userInput) true)
    else (["Searching by ticker..."], result)
  else
    (["Searching by title..."], searchByTitle titleIndex (lower userInput) true).

(** [searchCompany]: read a line, look it up, parse and handle the result. *)
Fixpoint searchCompany (tickerIndex titleIndex cikIndex : Index)
  (stdin : list string) {struct stdin} : Out (Result Answer) :=
  match stdin with
  | [] => ([], Raise EOFError)
  | line :: rest =>
      let userInput := strip line in
      let '(printed, result) :=
        searchCompanyLookup tickerIndex titleIndex cikIndex userInput in
      emit printed
        match parseSearchResults result userInput with
        | (lines, Raise e) => (lines, Raise e)
        | (lines, Return parsedResults) =>
            emit lines
              (handleSearchResults
                 (fun tk ti ck => searchCompany tk ti ck rest)
                 (Args5 parsedResults tickerIndex titleIndex cikIndex userInput)
                 rest)
        end
  end.

(** ** makeRequest.py: the rate limiter *)

Open Scope Z_scope.

(** The attributes of a [RateLimiter] (the lock is left out: calls of [wait]
    are taken one after the other, which is what it enforces). *)
Record RateLimiter : Type := mkRateLimiter {
  maxCalls : Z;
  period : Z;
  calls : Z;
  startTime : Z
}.

(** [RateLimiter(maxCalls, period)] built when the clock reads [now]. *)
Definition newRateLimiter (maxCalls period now : Z) : RateLimiter :=
  mkRateLimiter maxCalls period 0 now.

(** One pass through the loop of [wait] with the clock reading [currentTime]:
    the new state, and whether the call returns in this pass. *)
Definition waitPass (self : RateLimiter) (currentTime : Z) : RateLimiter * bool :=
  let elapsed := currentTime - startTime self in
  let self :=
    if period self <? elapsed
    then mkRateLimiter (maxCalls self) (period self) 0 currentTime
    else self in
  if calls self <? maxCalls self
  then (mkRateLimiter (maxCalls self) (period self) (calls self + 1) (startTime self),
        true)
  else (self, false).

(** [wait]: [clock] lists the successive readings of [time.time()], one per
    pass. The result is the state the call leaves, the reading at which it
    returned and the readings not consumed; [None] when the call is still
    blocked after the last reading. *)
Fixpoint wait (self : RateLimiter) (clock : list Z)
  : option (RateLimiter * Z * list Z) :=
  match clock with
  | [] => None
  | currentTime :: clock' =>
      match waitPass self currentTime with
      | (self', true) => Some (self', currentTime, clock')
      | (self', false) => wait self' clock'
      end
  end.

(** [n] calls of [wait] one after the other. Each completed call is recorded
    with the reading at which it returned and the state it left. *)
Fixpoint waits (n : nat) (self : RateLimiter) (clock : list Z)
  : option (RateLimiter * list (Z * RateLimiter) * list Z) :=
  match n with
  | O => Some (self, [], clock)
  | S n' =>
      match wait self clock with
      | None => None
      | Some (self', t, clock') =>
          match waits n' self' clock' with
          | None => None
          | Some (final, done, rest) => Some (final, (t, self') :: done, rest)
          end
      end
  end.

(** Clock readings never go back. *)
Fixpoint ascending (clock : list Z) : Prop :=
  match clock with
  | [] => True
  | t :: clock' => (forall u, In u clock' -> t <= u) /\ ascending clock'
  end.

(** The window boundaries of a run: the start time at construction and the
    start time in force after each completed call. *)
Definition boundaries (t0 : Z) (done : list (Z * RateLimiter)) : list Z :=
  t0 :: map (fun d => startTime (snd d)) done.

(** Number of calls completed in the closed window [[S, S + period]]. *)
Definition completedIn (S period : Z) (done : list (Z * RateLimiter)) : Z :=
  Z.of_nat (length (filter (fun d => (S <=? fst d) && (fst d <=? S + period)) done)).

(** ** makeRequest.py: the client *)

(** A parsed JSON value; [JNull] is Python's [None]. *)
#[warnings="-register-all"]
Inductive Json : Type :=
| JNull
| JBool (b : bool)
| JNum (z : Z)
| JStr (s : string)
| JArr (items : list Json)
| JObj (members : list (string * Json)).

(** What [requests.get] hands back: the status code and the outcome of
    [response.json()]. *)
Record Response : Type := mkResponse {
  status_code : Z;
  json : Result Json
}.

(** An [EdgarClient] object: its [rateLimiter] attribute, [None] or the
    address of a limiter. *)
Record EdgarClient : Type := mkEdgarClient {
  rateLimiter : option nat
}.

(** The objects of the process: limiters and clients by address, and the
    class attribute [EdgarClient._instance]. *)
Record Heap : Type := mkHeap {
  limiters : list RateLimiter;
  clients : list EdgarClient;
  _instance : option nat
}.

Definition emptyHeap : Heap := mkHeap [] [] None.

(** [RateLimiter(maxCalls, period)]: a new object, at a new address. *)
Definition allocRateLimiter (maxCalls period now : Z) (h : Heap) : nat * Heap :=
  (length (limiters h),
   mkHeap (limiters h ++ [newRateLimiter maxCalls period now]) (clients h) (_instance h)).

(** [EdgarClient.__new__(cls, rateLimiter)]. The class defines no
    [__init__], so nothing runs after it. *)
Definition EdgarClient_new (rateLimiter : option nat) (h : Heap) : nat * Heap :=
  match _instance h with
  | None =>
      let self := length (clients h) in
      (self, mkHeap (limiters h) (clients h ++ [mkEdgarClient rateLimiter]) (Some self))
  | Some self => (self, h)
  end.

Fixpoint update {A : Type} (l : list A) (i : nat) (x : A) : list A :=
  match l, i with
  | [], _ => []
  | _ :: l', O => x :: l'
  | y :: l', S i' => y :: update l' i' x
  end.

(** [self.rateLimiter] for a client address handed out by [EdgarClient_new]. *)
Definition rateLimiterOf (h : Heap) (self : nat) : option nat :=
  match nth_error (clients h) self with
  | Some c => rateLimiter c
  | None => None
  end.

(** [EdgarClient.get_data]. [reply] is what [requests.get(url, headers)]
    does: return a response or raise. [None] when the limiter is still
    blocked after the last clock reading. *)
Definition get_data (self : nat) (reply : Result Response) (clock : list Z) (h : Heap)
  : option (Result Json * list Z * Heap) :=
  let waited :=
    match rateLimiterOf h self with
    | None => Some (clock, h)
    | Some a =>
        match nth_error (limiters h) a with
        | None => Some (clock, h)
        | Some limiter =>
            match wait limiter clock with
            | None => None
            | Some (limiter', _, clock') =>
                Some (clock', mkHeap (update (limiters h) a limiter') (clients h)
                                (_instance h))
            end
        end
    end in
  match waited with
  | None => None
  | Some (clock', h') =>
      match reply with
      | Raise e => Some (Raise e, clock', h')
      | Return response =>
          if negb (status_code response =? 200)
          then Some (Return JNull, clock', h')
          else Some (json response, clock', h')
      end
  end.

(** Clock ticks per second: [period=60] is sixty seconds. *)
Definition ticksPerSecond : Z := 1000.

(** [makeRequest]: the client of the process is obtained with a limiter
    built on the spot, then asked for the data; any exception becomes
    [None]. The URL only selects the [reply] of the network. *)
Definition makeRequest (reply : Result Response) (clock : list Z) (h : Heap)
  : option (Json * list Z * Heap) :=
  match clock with
  | [] => None
  | now :: clock1 =>
      let '(limiter, h1) := allocRateLimiter 10 (60 * ticksPerSecond) now h in
      let '(client, h2) := EdgarClient_new (Some limiter) h1 in
      match get_data client reply clock1 h2 with
      | None => None
      | Some (Return companyData, clock2, h3) => Some (companyData, clock2, h3)
      | Some (Raise _, clock2, h3) => Some (JNull, clock2, h3)
      end
  end.

(** ** requestCompanyFacts.py: correcting fact rows *)

(** A cell of the [fy] column: missing, a number or a text. *)
Inductive Cell : Type :=
| NaN
| CInt (z : Z)
| CStr (s : string).

(** [f"{cell}"] *)
Definition fmt (c : Cell) : string :=
  match c with
  | NaN => "nan"
  | CInt z => NilZero.string_of_int (Z.to_int z)
  | CStr s => s
  end.

(** A row of the concept table. [fp] and [frame] are texts or missing
    ([None]); the five columns the correction does not read are kept as
    they come. *)
Record Row : Type := mkRow {
  col_end : Cell;
  col_val : Cell;
  col_accn : Cell;
  fy : Cell;
  fp : option string;
  col_form : Cell;
  col_filed : Cell;
  frame : option string
}.

Definition setFp (row : Row) (v : string) : Row :=
  mkRow (col_end row) (col_val row) (col_accn row) (fy row) (Some v)
        (col_form row) (col_filed row) (frame row).

Definition setFrame (row : Row) (v : string) : Row :=
  mkRow (col_end row) (col_val row) (col_accn row) (fy row) (fp row)
        (col_form row) (col_filed row) (Some v).

(** [pd.isna(x)] and [x == 'FY'] on an [fp] cell. *)
Definition isna (x : option string) : bool :=
  match x with None => true | Some _ => false end.
Definition isFY (x : option string) : bool :=
  match x with Some s => String.eqb s "FY" | None => false end.

(** [correctRow], the function applied to every row. *)
Definition correctRow (row : Row) : Row :=
  if (isna (fp row) || isFY (fp row)) && isna (frame row) then
    setFrame (setFp row "N/a") ("CY" ++ fmt (fy row))%string
  else if isna (frame row) && negb (isna (fp row)) && negb (isFY (fp row)) then
    match fp row with
    | Some q => setFrame row ("CY" ++ fmt (fy row) ++ q ++ "I")%string
    | None => row
    end
  else if (isna (fp row) || isFY (fp row)) && negb (isna (frame row)) then
    match frame row with
    | Some f =>
        if (String.length f =? 6)%nat then setFp row "N/A"
        else if (9 <=? String.length f)%nat then setFp row (slice 6 8 f)
        else row
    | None => row
    end
  else row.

(** [conceptDataFrame.apply(correctRow, axis=1)] *)
Definition updateFyAndFrameCols (conceptDataFrame : list Row) : list Row :=
  map correctRow conceptDataFrame.

(** ** Notions used in the statements *)

(** Number of entries of an index, summed over its buckets. *)
Definition entries (index : Index) : nat :=
  fold_right (fun item n => (length (snd item) + n)%nat) 0%nat index.

(** The records of a [list or None] result. *)
Definition records (result : option (list Rec)) : list Rec :=
  match result with
  | Some found => found
  | None => []
  end.

(** The companies of the source mapping, in iteration order. *)
Definition companiesOf (companyData : dict Company) : list Company :=
  map snd companyData.

(** What a bucket is expected to hold for the key [k]: the entries of the
    companies whose key is [k], in source order; no bucket when there is no
    such company. *)
Definition expectedBucket (key : Company -> string) (entry : Company -> Rec)
  (companies : list Company) (k : string) : option (list Rec) :=
  match filter (fun company => String.eqb (key company) k) companies with
  | [] => None
  | found => Some (map entry found)
  end.

(** The partial title search in the words of the specification: the records
    of every bucket whose title contains the target, ignoring case, bucket
    after bucket. *)
Definition partialTitleMatches (titleIndex : Index) (target : string)
  : option (list Rec) :=
  match concat (map snd (filter (fun item => contains target (lower (fst item)))
                           titleIndex)) with
  | [] => None
  | found => Some found
  end.

(** A single index built on its own, one key and one entry per company. *)
Definition indexBy (key : Company -> string) (entry : Company -> Rec)
  (companies : list Company) : Index :=
  fold_left (fun index company => setdefault_append index (key company) (entry company))
            companies [].

(** The three tuples of a parsed result have one length. *)
Definition aligned (titles tickers ciks : list string) : Prop :=
  length tickers = length titles /\ length ciks = length titles.

(** An invalid selection among [n] candidates: not a number, or a number
    outside [1..n]. *)
Definition invalidSelection (n : nat) (line : string) : Prop :=
  match int line with
  | None => True
  | Some selection => selection < 1 \/ Z.of_nat n < selection
  end.

(** A later request for the client: with no limiter, with a limiter that
    exists already, or with one built for the occasion. *)
Inductive Construction : Type :=
| WithNone
| WithExisting (limiter : nat)
| WithFresh (maxCalls period now : Z).

Definition construct (c : Construction) (h : Heap) : nat * Heap :=
  match c with
  | WithNone => EdgarClient_new None h
  | WithExisting a => EdgarClient_new (Some a) h
  | WithFresh m p now =>
      let '(a, h1) := allocRateLimiter m p now h in
      EdgarClient_new (Some a) h1
  end.

(** A sequence of such requests: the clients returned and the final heap. *)
Fixpoint constructAll (cs : list Construction) (h : Heap) : list nat * Heap :=
  match cs with
  | [] => ([], h)
  | c :: cs' =>
      let '(self, h1) := construct c h in
      let '(selves, h2) := constructAll cs' h1 in
      (self :: selves, h2)
  end.

(** The limiter of the client lets a call through on this clock: it has
    room for calls and some reading lies beyond the end of its window. *)
Definition clockSuffices (h : Heap) (self : nat) (clock : list Z) : Prop :=
  match rateLimiterOf h self with
  | None => True
  | Some a =>
      match nth_error (limiters h) a with
      | None => True
      | Some limiter =>
          0 < maxCalls limiter /\
          Exists (fun t => period limiter < t - startTime limiter) clock
      end
  end.

(** The keys under which [createHashIndexes] files a company. *)
Definition tickerKey (company : Company) : string := lower (ticker company).
Definition titleKey (company : Company) : string := lower (title company).
Definition cikKey (company : Company) : string := str (cik_str company).

(** Sample data. *)
Definition appleAndMicrosoft : dict Company :=
  [("0", mkCompany (VInt 320193) "AAPL" "Apple Inc");
   ("1", mkCompany (VInt 789019) "MSFT" "Microsoft Corp")].

Definition appleTitles : Index :=
  [("apple inc", [mkRec None (Some "AAPL") (Some (VInt 320193))]);
   ("apple hospitality reit", [mkRec None (Some "APLE") (Some (VInt 1418121))])].

(** The docstring example of [parseSearchResults]: records that hold all
    three keys. *)
Definition newbury : Rec :=
  mkRec (Some "Newbury Street II Acquisition Corp") (Some "NTWOU") (Some (VInt 2028027)).
Definition xyzCorp : Rec :=
  mkRec (Some "XYZ Corporation") (Some "XYZ") (Some (VInt 2028030)).

(** A record as the indexes store it: exactly one of the three keys is
    missing, and no text that is present reads "N/A". *)
Definition fromIndex (r : Rec) : Prop :=
  match r_title r, r_ticker r, r_cik_str r with
  | None, Some k, Some _ => k <> "N/A"
  | Some t, None, Some _ => t <> "N/A"
  | Some t, Some k, None => t <> "N/A" /\ k <> "N/A"
  | _, _, _ => False
  end.

(** The triple such a record resolves to: the missing field is the user's
    text, the others are the stored ones. *)
Definition resolved (userInput : string) (r : Rec) : string * string * string :=
  (match r_title r with Some t => t | None => userInput end,
   match r_ticker r with Some k => k | None => userInput end,
   match r_cik_str r with Some c => str c | None => userInput end).

(** Two candidates, as [parseSearchResults] returns them. *)
Definition twoApples : option Parsed :=
  Some (Several ["apple"; "apple"] ["AAPL"; "APLE"] ["320193"; "1418121"]).

(** A fact row with neither [fp] nor [frame], and one whose [fp] is "FY". *)
Definition bareRow : Row := mkRow NaN NaN NaN (CInt 2020) None NaN NaN None.
Definition fyRow : Row := mkRow NaN NaN NaN (CInt 2020) (Some "FY") NaN NaN None.

(** A heap in which the client exists, with a limiter that has used its
    ten calls in the window that began at 0. *)
Definition busyHeap : Heap :=
  mkHeap [mkRateLimiter 10 60000 10 0] [mkEdgarClient (Some 0%nat)] (Some 0%nat).

(** What holds of a limiter with parameters [M] and [P] in the middle of a
    run: [past] are the calls completed so far, [bnds] the window boundaries
    met so far and [lo] a reading that no later reading precedes. *)
Definition windowInv (M P : Z) (self : RateLimiter) (past : list (Z * RateLimiter))
  (bnds : list Z) (lo : Z) : Prop :=
  maxCalls self = M /\ period self = P /\
  0 <= calls self <= M /\
  completedIn (startTime self) P past <= calls self /\
  (forall d, In d past -> fst d <= startTime self + P) /\
  (forall S, In S bnds ->
     S = startTime self \/ (S + P < startTime self /\ completedIn S P past <= M)) /\
  startTime self <= lo.

Definition threeCompanies : dict Company :=
  appleAndMicrosoft ++ [("2", mkCompany (VInt 1418121) "APLE" "Apple Hospitality REIT")].

(** ** Notions used in the further properties *)

(** The keys of a dict, in iteration order. *)
Definition keys {V : Type} (d : dict V) : list string := map fst d.

(** An index as [createHashIndexes] leaves it: every key once, and no bucket
    empty. *)
Definition wellFormedIndex (index : Index) : Prop :=
  NoDup (keys index) /\ Forall (fun item => snd item <> []) index.

(** Every key is its own lower-case form. *)
Definition lowerKeys (index : Index) : Prop :=
  Forall (fun item => lower (fst item) = fst item) index.

(** The text has no upper-case letter. *)
Definition noUpper (s : string) : bool := all_chars (fun c => negb (is_upper c)) s.

(** Two companies filed under one ticker. *)
Definition sharedTicker : dict Company :=
  [("0", mkCompany (VInt 11) "ABC" "First Corp");
   ("1", mkCompany (VInt 22) "abc" "Second Corp")].

(** What the correction may not touch, between a row and its corrected
    form: the six other columns, a frame that is present, and a fiscal
    period that is present and is not "FY". *)
Definition keptByCorrection (before after : Row) : Prop :=
  col_end after = col_end before /\ col_val after = col_val before /\
  col_accn after = col_accn before /\ fy after = fy before /\
  col_form after = col_form before /\ col_filed after = col_filed before /\
  (forall f, frame before = Some f -> frame after = Some f) /\
  (forall q, fp before = Some q -> q <> "FY" -> fp after = Some q).

(** What [makeRequest] hands back for a reply of the network: the parsed
    body of a response with status 200, and [None] for every other response
    and for every exception. *)
Definition replyValue (reply : Result Response) : Json :=
  match reply with
  | Raise _ => JNull
  | Return response =>
      if status_code response =? 200
      then match json response with
           | Return body => body
           | Raise _ => JNull
           end
      else JNull
  end.

(** ** makeRequest.py: the request URL *)

Fixpoint zeros (n : nat) : string :=
  match n with
  | O => EmptyString
  | S n' => String "0" (zeros n')
  end.

(** [s.zfill(width)]: zeros are added on the left, after a leading sign. *)
Definition zfill (width : nat) (s : string) : string :=
  if (width <=? String.length s)%nat then s
  else
    let fill := zeros (width - String.length s) in
    match s with
    | String c s' =>
        if Ascii.eqb c "+" || Ascii.eqb c "-" then String c (fill ++ s')%string
        else (fill ++ s)%string
    | EmptyString => fill
    end.

(** [new] put after every character, as [replace] does for an empty [old]. *)
Fixpoint interleave (new s : string) : string :=
  match s with
  | EmptyString => EmptyString
  | String c s' => String c (new ++ interleave new s')%string
  end.

(** The scan of [replace] for a non-empty [old]: [skip] counts the
    characters of the occurrence just replaced that are still to be passed. *)
Fixpoint replaceScan (old new : string) (skip : nat) (s : string) : string :=
  match s with
  | EmptyString => EmptyString
  | String c s' =>
      match skip with
      | S k => replaceScan old new k s'
      | O =>
          if String.prefix old s
          then (new ++ replaceScan old new (String.length old - 1) s')%string
          else String c (replaceScan old new 0 s')
      end
  end.

(** [s.replace(old, new)]: every occurrence, left to right, without
    overlap. *)
Definition replace (old new s : string) : string :=
  match old with
  | EmptyString => (new ++ interleave new s)%string
  | _ => replaceScan old new 0 s
  end.

Definition cikPlaceholder : string := "##########".

(** The first lines of [makeRequest]: the URL asked for. [cikNum] is [None]
    when the argument is left out. *)
Definition requestUrl (baseUrl : string) (cikNum : option string) : string :=
  match cikNum with
  | None | Some EmptyString => baseUrl
  | Some cik => replace cikPlaceholder (zfill 10 cik) baseUrl
  end.

(** The text has no ['#']. *)
Definition noHash (s : string) : bool :=
  all_chars (fun c => negb (Ascii.eqb c "#")) s.

(** ** terminalUtils.py and searchSecCompanies.py: browsing all companies *)

(** [getTerminalHeight]: [terminal] is the number of lines reported by
    [os.get_terminal_size()], or [None] when it raises [OSError]. *)
Definition getTerminalHeight (terminal : option Z) : Z :=
  match terminal with
  | Some lines => lines - 2
  | None => 20
  end.

(** A row of the browsing table: [[title, ticker, cik]]. *)
Definition TableRow : Type := (string * string * Val)%type.

Definition rowTitle (row : TableRow) : string := fst (fst row).

(** The rows gathered from the title index, bucket after bucket. *)
Definition allCompaniesOf (titleIndex : Index) : list TableRow :=
  flat_map
    (fun item =>
       map (fun company =>
              (fst item,
               match r_ticker company with Some t => t | None => "N/A" end,
               match r_cik_str company with Some c => c | None => VStr "N/A" end))
           (snd item))
    titleIndex.

(** The sort key of [sortAllCompanies]: [company[0].lower()]. *)
Definition sortKey (row : TableRow) : string := lower (rowTitle row).

(** Insertion of a row before the first row whose key is not smaller. *)
Fixpoint insertRow (row : TableRow) (sorted : list TableRow) : list TableRow :=
  match sorted with
  | [] => [row]
  | other :: rest =>
      if String.leb (sortKey row) (sortKey other) then row :: other :: rest
      else other :: insertRow row rest
  end.

(** [sortAllCompanies]: [sorted(allCompanies, key=...)]. [sorted] is stable,
    and a stable sort by a total order on the keys has one result only; it
    is computed here by insertion from the right. *)
Definition sortAllCompanies (allCompanies : list TableRow) : list TableRow :=
  fold_right insertRow [] allCompanies.

(** A position of a slice, as Python normalises it for a list of [len]
    items. *)
Definition sliceBound (len i : Z) : Z :=
  if i <? 0 then Z.max (i + len) 0 else Z.min i len.

(** [l[start:stop]] *)
Definition pySlice {A : Type} (l : list A) (start stop : Z) : list A :=
  let len := Z.of_nat (length l) in
  let s := sliceBound len start in
  let e := sliceBound len stop in
  firstn (Z.to_nat (e - s)) (skipn (Z.to_nat s) l).

(** [enumerate(items, start=idx)] with the row number [idx + 1] put first. *)
Fixpoint numbered (idx : Z) (items : list TableRow) : list (Z * TableRow) :=
  match items with
  | [] => []
  | row :: rest => (idx + 1, row) :: numbered (idx + 1) rest
  end.

(** The rows handed to [tabulate] for a page: [companiesToDisplay]. *)
Definition pageRows (companiesSorted : list TableRow) (screenHeight currentPage : Z)
  : list (Z * TableRow) :=
  let totalCompanies := Z.of_nat (length companiesSorted) in
  let startIdx := currentPage * screenHeight in
  let endIdx := Z.min (startIdx + screenHeight) totalCompanies in
  numbered startIdx (pySlice companiesSorted startIdx endIdx).

(** What the browser shows: a page (its number from zero, the number of
    pages, the rows of the table) or a notice. *)
Inductive Shown : Type :=
| Page (currentPage totalPages : Z) (table : list (Z * TableRow))
| Notice (text : string).

(** How browsing ends. *)
Inductive Browsed : Type :=
| Chosen (row : TableRow)
| Failed (e : Exn)
| ZeroDivisionError.

Definition totalPagesOf (totalCompanies screenHeight : Z) : Z :=
  totalCompanies / screenHeight +
  (if 0 <? totalCompanies mod screenHeight then 1 else 0).

(** The [while True] loop of [browseAllCompanies], with
    [displayCompanyTable] inlined: a page is shown, a line is read,
    stripped and lower-cased, and acted upon. *)
Fixpoint browseLoop (companiesSorted : list TableRow) (screenHeight totalPages : Z)
  (currentPage : Z) (stdin : list string) {struct stdin} : list Shown * Browsed :=
  let shown := Page currentPage totalPages
                    (pageRows companiesSorted screenHeight currentPage) in
  match stdin with
  | [] => ([shown], Failed EOFError)
  | line :: rest =>
      let action := lower (strip line) in
      let again page notices :=
        let '(later, outcome) :=
          browseLoop companiesSorted screenHeight totalPages page rest in
        (shown :: notices ++ later, outcome) in
      if String.eqb action "next" && (currentPage <? totalPages - 1) then
        again (currentPage + 1) []
      else if String.eqb action "back" && (0 <? currentPage) then
        again (currentPage - 1) []
      else if isdigit action then
        match int action with
        | None => ([shown], Failed ValueError)
        | Some selection =>
            if (1 <=? selection) && (selection <=? Z.of_nat (length companiesSorted))
            then
              match nth_error companiesSorted (Z.to_nat (selection - 1)) with
              | Some row => ([shown], Chosen row)
              | None => ([shown], Failed IndexError)
              end
            else
              again currentPage
                    [Notice "Invalid selection. Please enter a valid row number."]
        end
      else
        again currentPage
              [Notice "Invalid input. Please enter 'next', 'back', or a valid row number."]
  end.

(** [browseAllCompanies]; the ticker and CIK indexes it also receives are
    not used. *)
Definition browseAllCompanies (titleIndex : Index) (terminal : option Z)
  (stdin : list string) : list Shown * Browsed :=
  let companiesSorted := sortAllCompanies (allCompaniesOf titleIndex) in
  let screenHeight := getTerminalHeight terminal in
  let totalCompanies := Z.of_nat (length companiesSorted) in
  if screenHeight =? 0 then ([], ZeroDivisionError)
  else
    browseLoop companiesSorted screenHeight
               (totalPagesOf totalCompanies screenHeight) 0 stdin.

(** The order of the sorted table: by lower-cased title. *)
Definition keyLe (a b : TableRow) : Prop :=
  String.leb (sortKey a) (sortKey b) = true.

(** The page numbers [0 .. totalPages - 1]. *)
Definition pageNumbers (totalPages : Z) : list Z :=
  map Z.of_nat (seq 0 (Z.to_nat totalPages)).

(** A page shown while browsing [companiesSorted] is in order: its number is
    zero or lies below the number of pages, and its table is the one of that
    page. *)
Definition pageInOrder (companiesSorted : list TableRow) (screenHeight totalPages : Z)
  (s : Shown) : Prop :=
  match s with
  | Page p total table =>
      0 <= p /\ (p < totalPages \/ p = 0) /\ total = totalPages /\
      table = pageRows companiesSorted screenHeight p
  | Notice _ => True
  end.

(** ** Status classes, candidate listings and the depth of the call stack *)

(** An HTTP status of the success class, 2xx. *)
Definition successStatus (status : Z) : bool := (200 <=? status) && (status <? 300).

(** The behaviour of [get_data] in the words of the specification: [None]
    for every status outside the success class, and the parsed JSON body for
    every status inside it. *)
Definition returnsBodyOnEverySuccess : Prop :=
  forall (self : nat) (response : Response) (clock : list Z) (h : Heap),
    clockSuffices h self clock ->
    exists out clock' h',
      get_data self (Return response) clock h = Some (out, clock', h') /\
      (successStatus (status_code response) = false -> out = Return JNull) /\
      (successStatus (status_code response) = true ->
       exists body, json response = Return body /\ out = Return body).

(** A heap with the client and no limiter. *)
Definition clientOnlyHeap : Heap := mkHeap [] [mkEdgarClient None] (Some 0%nat).

(** The lines that list the companies found under one ticker, numbered
    from [idx + 1], with the user's text in the place of the ticker. *)
Fixpoint candidateListingFrom (idx : nat) (userInput : string) (found : list Company)
  : list string :=
  match found with
  | [] => []
  | company :: more =>
      candidateLine idx (title company) userInput (str (cik_str company))
      :: candidateListingFrom (S idx) userInput more
  end.

Definition candidateListing (userInput : string) (found : list Company) : list string :=
  candidateListingFrom 0 userInput found.




(** * Properties *)

(** ** Strings and dicts *)

Lemma prefix_refl (s : string) : String.prefix s s = true.
Proof.
  induction s as [|c s IH]; simpl; [reflexivity|].
  destruct (ascii_dec c c) as [_|ne]; [exact IH | congruence].
Qed.

Lemma contains_refl (s : string) : contains s s = true.
Proof.
  destruct s; simpl; [reflexivity|].
  apply orb_true_iff; left.
  apply (prefix_refl (String a s)).
Qed.

Lemma eqb_contains (s t : string) : String.eqb s t = true -> contains s t = true.
Proof.
  intros H; apply String.eqb_eq in H; subst t; apply contains_refl.
Qed.

Lemma lower_char_idem (c : ascii) : lower_char (lower_char c) = lower_char c.
Proof.
  unfold lower_char.
  destruct (is_upper c) eqn:U; [|rewrite U; reflexivity].
  unfold is_upper, between, code in *.
  apply andb_true_iff in U; destruct U as [lo hi].
  apply Nat.leb_le in lo; apply Nat.leb_le in hi.
  rewrite nat_ascii_embedding by lia.
  replace ((nat_of_ascii c + 32 <=? 90)%nat) with false
    by (symmetry; apply Nat.leb_gt; lia).
  rewrite andb_false_r; reflexivity.
Qed.

Lemma lower_idem (s : string) : lower (lower s) = lower s.
Proof.
  induction s as [|c s IH]; simpl; [reflexivity|].
  rewrite lower_char_idem, IH; reflexivity.
Qed.

Lemma isalpha_isalnum (s : string) : isalpha s = true -> isalnum s = true.
Proof.
  unfold isalpha, isalnum; intros H.
  apply andb_true_iff in H; destruct H as [ne al]; rewrite ne; simpl.
  clear ne; induction s as [|c s IH]; simpl in *; [reflexivity|].
  apply andb_true_iff in al; destruct al as [a al].
  rewrite (IH al), andb_true_r.
  unfold is_alnum; rewrite a; reflexivity.
Qed.

Section Buckets.
Context {A : Type}.

Lemma get_setdefault_append (d : dict (list A)) (k k' : string) (x : A) :
  get (setdefault_append d k x) k' =
  if String.eqb k k'
  then Some (match get d k' with Some b => b | None => [] end ++ [x])
  else get d k'.
Proof.
  induction d as [|[k0 b] d IH]; simpl.
  - destruct (String.eqb k k'); reflexivity.
  - destruct (String.eqb k0 k) eqn:E0; simpl.
    + apply String.eqb_eq in E0; subst k0.
      destruct (String.eqb k k'); reflexivity.
    + destruct (String.eqb k0 k') eqn:E1.
      * apply String.eqb_eq in E1; subst k0. rewrite String.eqb_sym, E0.
        reflexivity.
      * exact IH.
Qed.

Lemma setdefault_append_entries (d : dict (list A)) (k : string) (x : A) :
  fold_right (fun item n => (length (snd item) + n)%nat) 0%nat
             (setdefault_append d k x) =
  S (fold_right (fun item n => (length (snd item) + n)%nat) 0%nat d).
Proof.
  induction d as [|[k0 b] d IH]; simpl; [reflexivity|].
  destruct (String.eqb k0 k); simpl.
  - rewrite length_app; simpl; lia.
  - rewrite IH; lia.
Qed.
End Buckets.

(** ** The company index *)

Lemma createHashIndexes_indexBy (companyData : dict Company) :
  createHashIndexes companyData =
  (indexBy tickerKey tickerEntry (companiesOf companyData),
   indexBy titleKey titleEntry (companiesOf companyData),
   indexBy cikKey cikEntry (companiesOf companyData)).
Proof.
  unfold createHashIndexes, indexBy, companiesOf.
  generalize (@nil (string * list Rec)) at 1 4.
  generalize (@nil (string * list Rec)) at 1 3.
  generalize (@nil (string * list Rec)).
  induction companyData as [|[key company] rest IH]; intros ck ti tk; simpl.
  - reflexivity.
  - apply IH.
Qed.

Section IndexBy.
Variable key : Company -> string.
Variable entry : Company -> Rec.

Lemma indexBy_snoc (companies : list Company) (company : Company) :
  indexBy key entry (companies ++ [company]) =
  setdefault_append (indexBy key entry companies) (key company) (entry company).
Proof. unfold indexBy; rewrite fold_left_app; reflexivity. Qed.

Lemma indexBy_get (companies : list Company) (k : string) :
  get (indexBy key entry companies) k = expectedBucket key entry companies k.
Proof.
  induction companies as [|company companies IH] using rev_ind.
  - reflexivity.
  - rewrite indexBy_snoc, get_setdefault_append, IH.
    unfold expectedBucket; rewrite filter_app; simpl.
    destruct (String.eqb (key company) k).
    + destruct (filter _ companies) as [|c found]; simpl; [reflexivity|].
      rewrite map_app; reflexivity.
    + rewrite app_nil_r; reflexivity.
Qed.

Lemma indexBy_entries (companies : list Company) :
  entries (indexBy key entry companies) = length companies.
Proof.
  induction companies as [|company companies IH] using rev_ind.
  - reflexivity.
  - rewrite indexBy_snoc; unfold entries in *.
    rewrite setdefault_append_entries, IH, length_app; simpl; lia.
Qed.
End IndexBy.

(** C4. For a company mapping with N records, each of the three indexes
    returned by [createHashIndexes] holds exactly N entries summed over its
    buckets, and the bucket of every key holds the entries of exactly the
    companies with that key, one per company (nothing merged, nothing
    overwritten), in the order the source mapping iterates them. *)
Theorem createHashIndexes_keeps_every_record (companyData : dict Company) :
  let companies := companiesOf companyData in
  (entries (tickerIndexOf companyData) = length companyData /\
   entries (titleIndexOf companyData) = length companyData /\
   entries (cikIndexOf companyData) = length companyData) /\
  (forall k, get (tickerIndexOf companyData) k =
             expectedBucket tickerKey tickerEntry companies k) /\
  (forall k, get (titleIndexOf companyData) k =
             expectedBucket titleKey titleEntry companies k) /\
  (forall k, get (cikIndexOf companyData) k =
             expectedBucket cikKey cikEntry companies k).
Proof.
  unfold tickerIndexOf, titleIndexOf, cikIndexOf.
  rewrite createHashIndexes_indexBy; simpl.
  rewrite !indexBy_entries.
  unfold companiesOf; rewrite length_map.
  repeat split; intros; apply indexBy_get.
Qed.

(** C10. The CIK index is searched under the exact key [str(cik_str)]: when
    no stored [cik_str] prints as the target (as for a zero-padded variant of
    a stored CIK), [searchByCik] returns [None]; and whatever it returns are
    the entries of the companies whose [str(cik_str)] is the target itself. *)
Theorem searchByCik_exact_unpadded_key (companyData : dict Company) (cikTarget : string) :
  ((forall company, In company (companiesOf companyData) ->
                    str (cik_str company) <> cikTarget) ->
   searchByCik (cikIndexOf companyData) cikTarget = None) /\
  (forall found r,
     searchByCik (cikIndexOf companyData) cikTarget = Some found ->
     In r found ->
     exists company, In company (companiesOf companyData) /\
                     str (cik_str company) = cikTarget /\ r = cikEntry company).
Proof.
  unfold searchByCik, cikIndexOf.
  rewrite createHashIndexes_indexBy; simpl; rewrite indexBy_get.
  unfold expectedBucket, cikKey.
  split.
  - intros none.
    destruct (filter _ (companiesOf companyData)) as [|c found] eqn:F; [reflexivity|].
    assert (In c (c :: found)) as inF by (left; reflexivity).
    rewrite <- F in inF; apply filter_In in inF; destruct inF as [inC eq].
    apply String.eqb_eq in eq. destruct (none c inC eq).
  - intros found r E inR.
    destruct (filter _ (companiesOf companyData)) as [|c found'] eqn:F; [discriminate|].
    injection E as <-.
    change (In r (map cikEntry (c :: found'))) in inR; rewrite <- F in inR.
    apply in_map_iff in inR; destruct inR as [company [<- inF]].
    apply filter_In in inF; destruct inF as [inC eq].
    apply String.eqb_eq in eq.
    exists company; auto.
Qed.

Lemma searchByCik_exact_unpadded_key_witness :
  searchByCik (cikIndexOf appleAndMicrosoft) "0000320193" = None /\
  searchByCik (cikIndexOf appleAndMicrosoft) "320193" =
    Some [mkRec (Some "Apple Inc") (Some "AAPL") None].
Proof.
  split.
  - apply (proj1 (searchByCik_exact_unpadded_key appleAndMicrosoft "0000320193")).
    intros company [<-|[<-|[]]]; vm_compute; discriminate.
  - reflexivity.
Defined.

(** ** Title search *)

Lemma searchByTitle_records (titleIndex : Index) (titleTarget : string) (partial : bool) :
  records (searchByTitle titleIndex titleTarget partial) =
  fold_left (titleScan titleTarget partial) titleIndex [].
Proof.
  unfold searchByTitle.
  destruct (fold_left _ titleIndex []); reflexivity.
Qed.

Lemma titleScan_exact_in_partial (titleTarget : string) (titleIndex : Index) :
  forall exact partial : list Rec,
    incl exact partial ->
    incl (fold_left (titleScan titleTarget false) titleIndex exact)
         (fold_left (titleScan titleTarget true) titleIndex partial).
Proof.
  induction titleIndex as [|[t companies] rest IH]; intros exact partial sub; simpl.
  - exact sub.
  - apply IH.
    destruct (String.eqb titleTarget (lower t)) eqn:E.
    + rewrite (eqb_contains _ _ E).
      apply incl_app; [apply incl_appl; exact sub | apply incl_appr, incl_refl].
    + destruct (contains titleTarget (lower t)); [apply incl_appl|]; exact sub.
Qed.

(** C9. For every title index and every query (the empty one included),
    each record returned by the exact title search is returned by the
    partial title search with the same query. *)
Theorem searchByTitle_partial_superset_of_exact
  (titleIndex : Index) (titleTarget : string) (r : Rec) :
  In r (records (searchByTitle titleIndex titleTarget false)) ->
  In r (records (searchByTitle titleIndex titleTarget true)).
Proof.
  rewrite !searchByTitle_records.
  apply titleScan_exact_in_partial, incl_refl.
Qed.

Lemma searchByTitle_partial_superset_of_exact_witness :
  In (mkRec None (Some "AAPL") (Some (VInt 320193)))
     (records (searchByTitle appleTitles "apple inc" true)).
Proof.
  apply searchByTitle_partial_superset_of_exact.
  left; reflexivity.
Defined.

Lemma searchByTitle_partial_scan (titleTarget : string) (titleIndex : Index) :
  forall result : list Rec,
    fold_left (titleScan titleTarget true) titleIndex result =
    result ++ concat (map snd (filter (fun item => contains titleTarget (lower (fst item)))
                                 titleIndex)).
Proof.
  induction titleIndex as [|[t companies] rest IH]; intros result; simpl.
  - rewrite app_nil_r; reflexivity.
  - rewrite IH.
    destruct (contains titleTarget (lower t)); simpl; [rewrite app_assoc|]; reflexivity.
Qed.

Lemma searchByTitle_partial_matches (titleIndex : Index) (titleTarget : string) :
  searchByTitle titleIndex titleTarget true = partialTitleMatches titleIndex titleTarget.
Proof.
  unfold searchByTitle, partialTitleMatches.
  rewrite searchByTitle_partial_scan; reflexivity.
Qed.

(** ** Classification of the user's text *)

Lemma all_digit_alnum (s : string) :
  all_chars is_digit s = true -> all_chars is_alnum s = true.
Proof.
  induction s as [|c s IH]; simpl; [reflexivity|].
  intros H; apply andb_true_iff in H; destruct H as [d ds].
  rewrite (IH ds), andb_true_r.
  unfold is_alnum; rewrite d; apply orb_true_r.
Qed.

Lemma isdigit_isalnum (s : string) : isdigit s = true -> isalnum s = true.
Proof.
  unfold isdigit, isalnum; intros H.
  apply andb_true_iff in H; destruct H as [ne ds].
  rewrite ne, (all_digit_alnum s ds); reflexivity.
Qed.

(** C5. [searchCompany] strips the line the user typed, looks it up, and
    parses and handles what the lookup found. The lookup classifies the
    stripped text in three ways.
    All digits: the CIK index is looked up under the text itself, and nothing
    else is tried. Alphanumeric otherwise: the ticker index is looked up
    under the lower-cased text, and when that finds nothing the partial title
    search runs with the same lower-cased text. Anything else: the partial
    title search runs directly. *)
Theorem searchCompany_classifies_input
  (tickerIndex titleIndex cikIndex : Index) (raw : string) :
  let userInput := strip raw in
  let lookup := searchCompanyLookup tickerIndex titleIndex cikIndex userInput in
  (forall rest,
     searchCompany tickerIndex titleIndex cikIndex (raw :: rest) =
     emit (fst lookup)
       match parseSearchResults (snd lookup) userInput with
       | (lines, Raise e) => (lines, Raise e)
       | (lines, Return parsedResults) =>
           emit lines
             (handleSearchResults
                (fun tk ti ck => searchCompany tk ti ck rest)
                (Args5 parsedResults tickerIndex titleIndex cikIndex userInput)
                rest)
       end) /\
  (isdigit userInput = true ->
   lookup = (["Searching by CIK..."], get cikIndex userInput)) /\
  (isdigit userInput = false -> isalnum userInput = true ->
   lookup =
   if truthy (get tickerIndex (lower userInput))
   then (["Searching by ticker..."], get tickerIndex (lower userInput))
   else (["Searching by ticker..."; "No ticker found, searching by title..."],
         partialTitleMatches titleIndex (lower userInput))) /\
  (isalnum userInput = false ->
   lookup = (["Searching by title..."],
             partialTitleMatches titleIndex (lower userInput))).
Proof.
  intros userInput lookup; split.
  { intros rest; cbn [searchCompany]; fold userInput; fold lookup.
    destruct lookup as [printed result]; reflexivity. }
  subst lookup.
  unfold searchCompanyLookup, searchByCik, searchByTicker.
  rewrite lower_idem, searchByTitle_partial_matches.
  repeat split.
  - intros D; rewrite D; reflexivity.
  - intros D A; rewrite D, A, orb_true_r.
    destruct (truthy (get tickerIndex (lower userInput))); reflexivity.
  - intros A.
    destruct (isdigit userInput) eqn:D;
      [rewrite (isdigit_isalnum _ D) in A; discriminate|].
    destruct (isalpha userInput) eqn:L;
      [rewrite (isalpha_isalnum _ L) in A; discriminate|].
    rewrite A; reflexivity.
Qed.

Lemma searchCompany_classifies_input_witness :
  searchCompanyLookup (tickerIndexOf appleAndMicrosoft) (titleIndexOf appleAndMicrosoft)
    (cikIndexOf appleAndMicrosoft) (strip " 0000320193 ") =
    (["Searching by CIK..."], None) /\
  searchCompanyLookup (tickerIndexOf appleAndMicrosoft) (titleIndexOf appleAndMicrosoft)
    (cikIndexOf appleAndMicrosoft) (strip "Micro") =
    (["Searching by ticker..."; "No ticker found, searching by title..."],
     Some [mkRec None (Some "MSFT") (Some (VInt 789019))]) /\
  searchCompanyLookup (tickerIndexOf appleAndMicrosoft) (titleIndexOf appleAndMicrosoft)
    (cikIndexOf appleAndMicrosoft) (strip "apple inc") =
    (["Searching by title..."], Some [mkRec None (Some "AAPL") (Some (VInt 320193))]).
Proof.
  split; [|split].
  - refine (eq_trans
      (proj1 (proj2 (searchCompany_classifies_input _ _ _ " 0000320193 ")) _) _);
      reflexivity.
  - refine (eq_trans
      (proj1 (proj2 (proj2 (searchCompany_classifies_input _ _ _ "Micro"))) _ _) _);
      reflexivity.
  - refine (eq_trans
      (proj2 (proj2 (proj2 (searchCompany_classifies_input _ _ _ "apple inc"))) _) _);
      reflexivity.
Defined.

(** ** Parsing search results *)

Lemma parseCompany_fromIndex (userInput : string) (r : Rec)
  (titles tickers ciks : list string) :
  fromIndex r ->
  parseCompany userInput (titles, tickers, ciks) r =
  (titles ++ [fst (fst (resolved userInput r))],
   tickers ++ [snd (fst (resolved userInput r))],
   ciks ++ [snd (resolved userInput r)]).
Proof.
  destruct r as [[t|] [k|] [c|]]; unfold fromIndex, parseCompany, resolved; simpl;
    try contradiction.
  - intros [nt nk].
    apply String.eqb_neq in nt; apply String.eqb_neq in nk.
    rewrite nt, nk; reflexivity.
  - intros nt; apply String.eqb_neq in nt; rewrite nt; reflexivity.
  - reflexivity.
Qed.

Lemma parseCompany_fold_fromIndex (userInput : string) (found : list Rec) :
  Forall fromIndex found ->
  forall titles tickers ciks,
    fold_left (parseCompany userInput) found (titles, tickers, ciks) =
    (titles ++ map (fun r => fst (fst (resolved userInput r))) found,
     tickers ++ map (fun r => snd (fst (resolved userInput r))) found,
     ciks ++ map (fun r => snd (resolved userInput r)) found).
Proof.
  induction 1 as [|r found ok _ IH]; intros titles tickers ciks;
    cbn [fold_left map].
  - rewrite !app_nil_r; reflexivity.
  -     rewrite (parseCompany_fromIndex _ _ _ _ _ ok), IH, <- !app_assoc; reflexivity.
Qed.

(** On records as the indexes store them, [parseSearchResults] puts the
    user's text in the place of the missing field and keeps one entry per
    record: a triple for one record, three tuples of equal length for
    several. *)
Lemma parseSearchResults_on_index_records (userInput : string) (r : Rec) (more : list Rec) :
  Forall fromIndex (r :: more) ->
  parseSearchResults (Some (r :: more)) userInput =
  ([], Return (Some
     match more with
     | [] => Single (fst (fst (resolved userInput r))) (snd (fst (resolved userInput r)))
                    (snd (resolved userInput r))
     | _ => Several (map (fun r => fst (fst (resolved userInput r))) (r :: more))
                    (map (fun r => snd (fst (resolved userInput r))) (r :: more))
                    (map (fun r => snd (resolved userInput r)) (r :: more))
     end)).
Proof.
  intros ok; unfold parseSearchResults.
  rewrite (parseCompany_fold_fromIndex _ _ ok).
  destruct more; reflexivity.
Qed.

(** C6, where the code departs from it. A record that holds all three keys
    (the example of the function's own docstring) adds nothing to the three
    lists: alone it makes [titles[0]] raise [IndexError], and two of them
    give three empty tuples instead of the documented ones. A record that
    lacks two keys gets the user's text for the first and the placeholder
    ["N/A"] for the second. *)
Theorem parseSearchResults_complete_record_fails :
  parseSearchResults (Some [newbury]) "NTWOU" = ([], Raise IndexError) /\
  parseSearchResults (Some [newbury; xyzCorp]) "NTWOU" =
    ([], Return (Some (Several [] [] []))) /\
  parseSearchResults (Some [mkRec None None (Some (VInt 2028027))]) "NTWOU" =
    ([], Return (Some (Single "NTWOU" "N/A" "2028027"))).
Proof. repeat split. Qed.

(** ** Handling search results *)

Lemma candidateLines_aligned (titles tickers ciks : list string) :
  aligned titles tickers ciks ->
  forall n idx, (idx + n <= length titles)%nat ->
    exists lines, candidateLines idx n titles tickers ciks = (lines, Return tt).
Proof.
  intros [lk lc]; induction n as [|n IH]; intros idx le; simpl.
  - exists []; reflexivity.
  - destruct (nth_error titles idx) as [t|] eqn:T;
      [|apply nth_error_None in T; lia].
    destruct (nth_error tickers idx) as [k|] eqn:K;
      [|apply nth_error_None in K; lia].
    destruct (nth_error ciks idx) as [c|] eqn:C;
      [|apply nth_error_None in C; lia].
    destruct (IH (S idx)) as [lines E]; [lia|].
    rewrite E; eexists; reflexivity.
Qed.

(** C1, where the code departs from it. With several candidates on display
    and an invalid selection typed (not a number, or a number out of range),
    the retry call passes two arguments to a function of five parameters:
    the call raises [TypeError], which [except ValueError] does not catch, so
    the error reaches the caller and the candidates are never shown again. *)
Theorem handleSearchResults_invalid_selection_raises
  (research : Index -> Index -> Index -> Out (Result Answer))
  (titles tickers ciks : list string) (tickerIndex titleIndex cikIndex : Index)
  (userInput line : string) (rest : list string) :
  (1 < length titles)%nat ->
  aligned titles tickers ciks ->
  invalidSelection (length titles) line ->
  snd (handleSearchResults research
         (Args5 (Some (Several titles tickers ciks)) tickerIndex titleIndex cikIndex
                userInput)
         (line :: rest)) = Raise TypeError.
Proof.
  intros several al bad; simpl.
  apply Nat.ltb_lt in several; rewrite several.
  destruct (candidateLines_aligned _ _ _ al (length titles) 0%nat) as [lines E];
    [lia|].
  rewrite E; unfold invalidSelection in bad.
  destruct (int line) as [selection|]; simpl.
  - replace ((1 <=? selection) && (selection <=? Z.of_nat (length titles)))
      with false by (symmetry; apply andb_false_iff; rewrite !Z.leb_gt; lia).
    destruct rest; reflexivity.
  - destruct rest; reflexivity.
Qed.

Lemma handleSearchResults_invalid_selection_raises_witness :
  snd (handleSearchResults (fun _ _ _ => ([], Return None))
         (Args5 twoApples [] [] [] "apple") ["7"; "1"]) = Raise TypeError /\
  snd (handleSearchResults (fun _ _ _ => ([], Return None))
         (Args5 twoApples [] [] [] "apple") ["first"; "1"]) = Raise TypeError.
Proof.
  split; apply handleSearchResults_invalid_selection_raises;
    (simpl; lia) || (split; reflexivity) || (vm_compute; auto).
Defined.

(** The same from the entry point: the user searches "apple", two
    companies are listed, and an out-of-range or non-numeric answer ends the
    search with [TypeError]; a valid answer resolves the company. *)
Lemma searchCompany_selection_example :
  let tk := tickerIndexOf threeCompanies in
  let ti := titleIndexOf threeCompanies in
  let ck := cikIndexOf threeCompanies in
  snd (searchCompany tk ti ck ["apple"; "7"; "1"]) = Raise TypeError /\
  snd (searchCompany tk ti ck ["apple"; "first"; "1"]) = Raise TypeError /\
  snd (searchCompany tk ti ck ["apple"; "2"]) =
    Return (Some ("apple", "APLE", "1418121")) /\
  snd (searchCompany tk ti ck ["0000320193"; "aapl"]) =
    Return (Some ("Apple Inc", "aapl", "320193")).
Proof. repeat split. Qed.

(** ** The client *)

Lemma construct_existing (c : Construction) (h : Heap) (self : nat) :
  _instance h = Some self ->
  exists extra,
    construct c h = (self, mkHeap (limiters h ++ extra) (clients h) (Some self)).
Proof.
  intros E; destruct h as [ls cs i]; simpl in E; subst i.
  destruct c as [|a|m p now]; unfold construct, allocRateLimiter, EdgarClient_new; simpl.
  - exists []; rewrite app_nil_r; reflexivity.
  - exists []; rewrite app_nil_r; reflexivity.
  - eexists; reflexivity.
Qed.

Lemma constructAll_existing (cs : list Construction) :
  forall (h : Heap) (self : nat),
    _instance h = Some self ->
    exists extra,
      constructAll cs h =
      (repeat self (length cs), mkHeap (limiters h ++ extra) (clients h) (Some self)).
Proof.
  induction cs as [|c cs IH]; intros h self E; simpl.
  - exists []; rewrite app_nil_r; destruct h; simpl in *; subst; reflexivity.
  - destruct (construct_existing c h self E) as [extra1 ->].
    destruct (IH (mkHeap (limiters h ++ extra1) (clients h) (Some self)) self eq_refl)
      as [extra2 ->]; simpl.
    exists (extra1 ++ extra2); rewrite app_assoc; reflexivity.
Qed.

(** C3. Once [EdgarClient] has been constructed for the first time, every
    later construction, whatever limiter it is given (none, an existing one,
    one built for the occasion), returns the address of that first client;
    the client's [rateLimiter] attribute is still the one of the first call,
    no client is added, and every limiter that existed keeps its state. *)
Theorem EdgarClient_first_construction_is_final
  (first : option nat) (h0 : Heap) (later : list Construction) :
  _instance h0 = None ->
  let self := fst (EdgarClient_new first h0) in
  let h1 := snd (EdgarClient_new first h0) in
  let selves := fst (constructAll later h1) in
  let h2 := snd (constructAll later h1) in
  selves = repeat self (length later) /\
  rateLimiterOf h1 self = first /\
  rateLimiterOf h2 self = first /\
  clients h2 = clients h1 /\
  _instance h2 = Some self /\
  (forall a limiter, nth_error (limiters h1) a = Some limiter ->
                     nth_error (limiters h2) a = Some limiter).
Proof.
  intros fresh; unfold EdgarClient_new; rewrite fresh; simpl.
  set (self := length (clients h0)).
  set (h1 := mkHeap (limiters h0) (clients h0 ++ [mkEdgarClient first]) (Some self)).
  destruct (constructAll_existing later h1 self eq_refl) as [extra ->]; simpl.
  assert (rateLimiterOf h1 self = first) as field.
  { unfold rateLimiterOf, h1, self; simpl.
    rewrite nth_error_app2, Nat.sub_diag by lia; reflexivity. }
  repeat split; try assumption.
  intros a limiter E; rewrite nth_error_app1; [exact E|].
  apply nth_error_Some; rewrite E; discriminate.
Qed.

Lemma EdgarClient_first_construction_is_final_witness :
  fst (constructAll [WithFresh 10 60000 5; WithNone; WithExisting 0]
         (snd (EdgarClient_new (Some 0%nat)
                 (snd (allocRateLimiter 10 60000 0 emptyHeap))))) = [0; 0; 0]%nat /\
  rateLimiterOf
    (snd (constructAll [WithFresh 10 60000 5; WithNone; WithExisting 0]
            (snd (EdgarClient_new (Some 0%nat)
                    (snd (allocRateLimiter 10 60000 0 emptyHeap))))))
    0%nat = Some 0%nat.
Proof.
  pose proof (EdgarClient_first_construction_is_final (Some 0%nat)
                (snd (allocRateLimiter 10 60000 0 emptyHeap))
                [WithFresh 10 60000 5; WithNone; WithExisting 0] eq_refl) as H.
  split; [exact (proj1 H) | exact (proj1 (proj2 (proj2 H)))].
Defined.

Lemma waitPass_blocked (self self' : RateLimiter) (currentTime : Z) :
  0 < maxCalls self ->
  waitPass self currentTime = (self', false) ->
  self' = self /\ currentTime - startTime self <= period self.
Proof.
  unfold waitPass; intros room.
  destruct (period self <? currentTime - startTime self) eqn:R; simpl.
  - destruct (0 <? maxCalls self) eqn:Z; [discriminate|].
    apply Z.ltb_ge in Z; lia.
  - apply Z.ltb_ge in R.
    destruct (calls self <? maxCalls self); [discriminate|].
    intros E; injection E as <-; auto.
Qed.

(** A call of [wait] returns once the clock shows a reading beyond the end
    of the window, provided the limiter allows any call at all. *)
Lemma wait_returns (self : RateLimiter) (clock : list Z) :
  0 < maxCalls self ->
  Exists (fun t => period self < t - startTime self) clock ->
  exists self' t clock', wait self clock = Some (self', t, clock').
Proof.
  intros room; induction 1 as [t clock late | t clock _ IH]; simpl.
  - destruct (waitPass self t) as [self' [|]] eqn:P; [eauto|].
    apply waitPass_blocked in P; [lia | exact room].
  - destruct (waitPass self t) as [self' [|]] eqn:P; [eauto|].
    apply waitPass_blocked in P; [|exact room].
    destruct P as [-> _]; exact IH.
Qed.

(** C8, in the form that holds of the code. When the limiter of the client
    lets the call through, [get_data] returns [None], without raising, for
    every response whose status is not 200, the other codes of the success class included; for a
    response of status 200 it returns the parsed JSON body when
    [response.json()] gives one, and raises the error of [response.json()]
    when the body does not decode. *)
Theorem get_data_none_unless_status_200
  (self : nat) (response : Response) (clock : list Z) (h : Heap) :
  clockSuffices h self clock ->
  exists out clock' h',
    get_data self (Return response) clock h = Some (out, clock', h') /\
    (status_code response <> 200 -> out = Return JNull) /\
    (status_code response = 200 ->
     forall body, json response = Return body -> out = Return body) /\
    (status_code response = 200 ->
     forall e, json response = Raise e -> out = Raise e).
Proof.
  unfold clockSuffices, get_data; intros enough.
  assert (forall (clock' : list Z) (h' : Heap),
    exists out : Result Json,
      (if negb (status_code response =? 200)
       then Some (Return JNull, clock', h')
       else Some (json response, clock', h')) = Some (out, clock', h') /\
      (status_code response <> 200 -> out = Return JNull) /\
      (status_code response = 200 ->
       forall body, json response = Return body -> out = Return body) /\
      (status_code response = 200 ->
       forall e, json response = Raise e -> out = Raise e)) as answer.
  { intros clock' h'.
    destruct (status_code response =? 200) eqn:S; simpl; eexists; split;
      try reflexivity.
    - apply Z.eqb_eq in S; split; [|split].
      + intros not200; contradiction.
      + intros _ body E; exact E.
      + intros _ e E; exact E.
    - apply Z.eqb_neq in S; split; [|split].
      + reflexivity.
      + intros is200; contradiction.
      + intros is200; contradiction. }
  destruct (rateLimiterOf h self) as [a|].
  - destruct (nth_error (limiters h) a) as [limiter|].
    + destruct enough as [room late].
      destruct (wait_returns limiter clock room late) as [l' [t [clock' ->]]].
      destruct (answer clock' (mkHeap (update (limiters h) a l') (clients h)
                                 (_instance h))) as [out [E ok]].
      exists out, clock'; eexists; split; [exact E | exact ok].
    + destruct (answer clock h) as [out [E ok]].
      exists out, clock, h; split; [exact E | exact ok].
  - destruct (answer clock h) as [out [E ok]].
    exists out, clock, h; split; [exact E | exact ok].
Qed.

Lemma get_data_none_unless_status_200_witness :
  exists out clock' h',
    get_data 0%nat (Return (mkResponse 404 (Return (JStr "Not Found"))))
             [100; 60001; 60002] busyHeap = Some (out, clock', h') /\
    out = Return JNull.
Proof.
  destruct (get_data_none_unless_status_200 0%nat
              (mkResponse 404 (Return (JStr "Not Found"))) [100; 60001; 60002] busyHeap)
    as [out [clock' [h' [E [bad _]]]]].
  - unfold clockSuffices; simpl; split; [lia|].
    apply Exists_cons_tl, Exists_cons_hd; simpl; lia.
  - exists out, clock', h'; split; [exact E|].
    apply bad; simpl; lia.
Defined.

(** C8 as the specification states it does not hold. A response of status
    201, of the success class, with a body that decodes, gets [None] and not
    its body; and a response of status 200 whose body does not decode makes
    [get_data] raise. *)
Lemma get_data_success_status_counterexample :
  successStatus 201 = true /\
  get_data 0%nat (Return (mkResponse 201 (Return (JStr "created")))) [] clientOnlyHeap =
    Some (Return JNull, [], clientOnlyHeap) /\
  successStatus 200 = true /\
  get_data 0%nat (Return (mkResponse 200 (Raise JSONDecodeError))) [] clientOnlyHeap =
    Some (Raise JSONDecodeError, [], clientOnlyHeap) /\
  ~ returnsBodyOnEverySuccess.
Proof.
  repeat split.
  intros stated.
  destruct (stated 0%nat (mkResponse 201 (Return (JStr "created"))) [] clientOnlyHeap I)
    as [out [clock' [h' [E [_ body]]]]].
  destruct (body eq_refl) as [b [parsed ->]].
  simpl in parsed; injection parsed as <-.
  discriminate E.
Qed.

(** ** Correcting fact rows *)

(** The table [correctRow] implements, case by case; a row that falls in
    none of the cases comes back as it is. *)
Lemma correctRow_table (row : Row) :
  (isna (fp row) || isFY (fp row) = true -> frame row = None ->
   correctRow row = setFrame (setFp row "N/a") ("CY" ++ fmt (fy row))%string) /\
  (forall q, fp row = Some q -> q <> "FY" -> frame row = None ->
   correctRow row = setFrame row ("CY" ++ fmt (fy row) ++ q ++ "I")%string) /\
  (forall f, isna (fp row) || isFY (fp row) = true -> frame row = Some f ->
   String.length f = 6%nat -> correctRow row = setFp row "N/A") /\
  (forall f, isna (fp row) || isFY (fp row) = true -> frame row = Some f ->
   (9 <= String.length f)%nat -> correctRow row = setFp row (slice 6 8 f)) /\
  (forall f, isna (fp row) || isFY (fp row) = true -> frame row = Some f ->
   String.length f <> 6%nat -> (String.length f < 9)%nat -> correctRow row = row) /\
  (forall q f, fp row = Some q -> q <> "FY" -> frame row = Some f ->
   correctRow row = row).
Proof.
  unfold correctRow; repeat split.
  - intros E F; rewrite E, F; reflexivity.
  - intros q E ne F; rewrite E, F; simpl.
    apply String.eqb_neq in ne; rewrite ne; reflexivity.
  - intros f E F len; rewrite E, F, len; reflexivity.
  - intros f E F len; rewrite E, F; cbn [isna andb negb].
    destruct (String.length f =? 6)%nat eqn:six;
      [apply Nat.eqb_eq in six; lia|].
    apply Nat.leb_le in len; rewrite len; reflexivity.
  - intros f E F n6 lt9; rewrite E, F; cbn [isna andb negb].
    apply Nat.eqb_neq in n6; rewrite n6.
    replace (9 <=? String.length f)%nat with false
      by (symmetry; apply Nat.leb_gt; exact lt9).
    reflexivity.
  - intros q f E ne F; rewrite E, F; simpl.
    apply String.eqb_neq in ne; rewrite ne; reflexivity.
Qed.

(** C7, where the code departs from it. In the first case of the table (no
    [frame], and [fp] missing or "FY") the frame becomes "CY" followed by the
    year, but [fp] is set to "N/a", not to the sentinel "N/A" that the third
    case writes. *)
Theorem correctRow_first_case_sentinel :
  correctRow bareRow = mkRow NaN NaN NaN (CInt 2020) (Some "N/a") NaN NaN (Some "CY2020") /\
  correctRow fyRow = mkRow NaN NaN NaN (CInt 2020) (Some "N/a") NaN NaN (Some "CY2020") /\
  fp (correctRow bareRow) <> Some "N/A" /\
  fp (correctRow (mkRow NaN NaN NaN (CInt 2020) None NaN NaN (Some "CY2020"))) =
    Some "N/A" /\
  updateFyAndFrameCols [bareRow] <> [setFrame (setFp bareRow "N/A") "CY2020"].
Proof.
  repeat split; try reflexivity; discriminate.
Qed.

(** ** The rate limiter *)

Lemma completedIn_cons (S P : Z) (d : Z * RateLimiter) (past : list (Z * RateLimiter)) :
  completedIn S P (d :: past) =
  (if (S <=? fst d) && (fst d <=? S + P) then 1 else 0) + completedIn S P past.
Proof.
  unfold completedIn; simpl.
  destruct ((S <=? fst d) && (fst d <=? S + P)); simpl length; lia.
Qed.

Lemma completedIn_nonneg (S P : Z) (past : list (Z * RateLimiter)) :
  0 <= completedIn S P past.
Proof. unfold completedIn; lia. Qed.

Lemma completedIn_before (S P : Z) (past : list (Z * RateLimiter)) :
  (forall d, In d past -> fst d < S) -> completedIn S P past = 0.
Proof.
  induction past as [|d past IH]; intros before; [reflexivity|].
  rewrite completedIn_cons, IH by (intros; apply before; right; assumption).
  specialize (before d (or_introl eq_refl)).
  replace (S <=? fst d) with false by (symmetry; apply Z.leb_gt; lia).
  reflexivity.
Qed.

Lemma completedIn_empty_window (S P : Z) (past : list (Z * RateLimiter)) :
  P < 0 -> completedIn S P past = 0.
Proof.
  intros neg; induction past as [|d past IH]; [reflexivity|].
  rewrite completedIn_cons, IH.
  destruct (S <=? fst d) eqn:lo; simpl; [|reflexivity].
  apply Z.leb_le in lo.
  replace (fst d <=? S + P) with false by (symmetry; apply Z.leb_gt; lia).
  reflexivity.
Qed.

Lemma completedIn_rev (S P : Z) (past : list (Z * RateLimiter)) :
  completedIn S P (rev past) = completedIn S P past.
Proof.
  unfold completedIn; induction past as [|d past IH]; [reflexivity|].
  simpl rev; rewrite filter_app, length_app; simpl filter.
  destruct ((S <=? fst d) && (fst d <=? S + P)); simpl length; lia.
Qed.

Lemma wait_never (clock : list Z) :
  forall self, maxCalls self <= 0 -> maxCalls self <= calls self ->
               wait self clock = None.
Proof.
  induction clock as [|t clock IH]; intros self none full; simpl; [reflexivity|].
  unfold waitPass.
  destruct (period self <? t - startTime self); simpl.
  - replace (0 <? maxCalls self) with false by (symmetry; apply Z.ltb_ge; lia).
    apply IH; simpl; lia.
  - replace (calls self <? maxCalls self) with false
      by (symmetry; apply Z.ltb_ge; lia).
    apply IH; assumption.
Qed.

Lemma waitPass_full (self self' : RateLimiter) (t : Z) :
  waitPass self t = (self', false) ->
  maxCalls self' = maxCalls self /\ maxCalls self' <= calls self'.
Proof.
  unfold waitPass.
  destruct (period self <? t - startTime self); simpl.
  - destruct (0 <? maxCalls self) eqn:Z; [discriminate|].
    intros E; injection E as <-; simpl; apply Z.ltb_ge in Z; lia.
  - destruct (calls self <? maxCalls self) eqn:Z; [discriminate|].
    intros E; injection E as <-; apply Z.ltb_ge in Z; lia.
Qed.

(** A call that returns does so in one pass from the state it found: the
    passes before it changed nothing. *)
Lemma wait_returned (clock : list Z) :
  forall self self' t clock',
    wait self clock = Some (self', t, clock') ->
    waitPass self t = (self', true) /\
    exists skipped, clock = skipped ++ t :: clock'.
Proof.
  induction clock as [|c clock IH]; intros self self' t clock'; simpl;
    [discriminate|].
  destruct (waitPass self c) as [s1 [|]] eqn:P.
  - intros E; injection E as <- <- <-.
    split; [exact P | exists []; reflexivity].
  - intros E.
    destruct (Z_lt_le_dec 0 (maxCalls self)) as [room|none].
    + destruct (waitPass_blocked _ _ _ room P) as [-> _].
      destruct (IH _ _ _ _ E) as [pass [skipped ->]].
      split; [exact pass | exists (c :: skipped); reflexivity].
    + destruct (waitPass_full _ _ _ P) as [same full].
      rewrite wait_never in E by lia; discriminate.
Qed.

Lemma ascending_tail (skipped : list Z) (t : Z) (clock : list Z) :
  ascending (skipped ++ t :: clock) ->
  ascending clock /\ forall u, In u clock -> t <= u.
Proof.
  induction skipped as [|s skipped IH]; simpl.
  - intros [le asc]; auto.
  - intros [_ asc]; auto.
Qed.

(** A pass in which a call returns keeps [windowInv], with the call added to
    the completed ones and the start time in force to the boundaries. *)
Lemma waitPass_windowInv (M P : Z) (self self' : RateLimiter)
  (past : list (Z * RateLimiter)) (bnds : list Z) (lo t : Z) :
  0 <= P ->
  windowInv M P self past bnds lo ->
  lo <= t ->
  waitPass self t = (self', true) ->
  windowInv M P self' ((t, self') :: past) (startTime self' :: bnds) t.
Proof.
  intros posP (eM & eP & [c0 cM] & count & old & bs & start) later.
  unfold waitPass; rewrite eM, eP.
  destruct (P <? t - startTime self) eqn:R; simpl.
  - apply Z.ltb_lt in R.
    destruct (0 <? M) eqn:room; [|discriminate].
    apply Z.ltb_lt in room.
    intros E; injection E as <-; unfold windowInv; simpl.
    assert (completedIn t P past = 0) as fresh
      by (apply completedIn_before; intros d inP; specialize (old d inP); lia).
    repeat split; try lia.
    + rewrite completedIn_cons, fresh; simpl.
      destruct ((t <=? t) && (t <=? t + P)); lia.
    + intros d [<-|inP]; simpl; [lia | specialize (old d inP); lia].
    + intros S [<-|inB]; [left; reflexivity | right].
      rewrite completedIn_cons; simpl.
      destruct (bs S inB) as [->|[far le]].
      * replace (t <=? startTime self + P) with false
          by (symmetry; apply Z.leb_gt; lia).
        rewrite andb_false_r; lia.
      * replace (t <=? S + P) with false by (symmetry; apply Z.leb_gt; lia).
        rewrite andb_false_r; lia.
  - apply Z.ltb_ge in R; rewrite ?eM.
    destruct (calls self <? M) eqn:room; [|discriminate].
    apply Z.ltb_lt in room.
    intros E; injection E as <-; unfold windowInv; simpl.
    repeat split; try lia.
    + rewrite completedIn_cons; simpl.
      destruct ((startTime self <=? t) && (t <=? startTime self + P)); lia.
    + intros d [<-|inP]; simpl; [lia | exact (old d inP)].
    + intros S [<-|inB]; [left; reflexivity|].
      destruct (bs S inB) as [->|[far le]]; [left; reflexivity | right].
      rewrite completedIn_cons; simpl.
      replace (t <=? S + P) with false by (symmetry; apply Z.leb_gt; lia).
      rewrite andb_false_r; lia.
Qed.

Lemma waits_windowInv (M P : Z) (n : nat) :
  0 <= P ->
  forall self clock final done rest past bnds lo,
    windowInv M P self past bnds lo ->
    ascending clock ->
    (forall u, In u clock -> lo <= u) ->
    waits n self clock = Some (final, done, rest) ->
    exists lo',
      windowInv M P final (rev done ++ past)
                (rev (map (fun d => startTime (snd d)) done) ++ bnds) lo'.
Proof.
  intros posP; induction n as [|n IH];
    intros self clock final done rest past bnds lo inv asc low; simpl.
  - intros E; injection E as <- <- <-; exists lo; exact inv.
  - destruct (wait self clock) as [[[s1 t] clock1]|] eqn:W; [|discriminate].
    destruct (waits n s1 clock1) as [[[final' done'] rest']|] eqn:Ws; [|discriminate].
    intros E; injection E as <- <- <-.
    destruct (wait_returned _ _ _ _ _ W) as [pass [skipped ->]].
    destruct (ascending_tail _ _ _ asc) as [asc1 low1].
    assert (lo <= t) as later by (apply low, in_or_app; right; left; reflexivity).
    pose proof (waitPass_windowInv _ _ _ _ _ _ _ _ posP inv later pass) as inv1.
    destruct (IH _ _ _ _ _ _ _ _ inv1 asc1 low1 Ws) as [lo' inv'].
    exists lo'; simpl; rewrite <- !app_assoc; exact inv'.
Qed.

(** No more than [maxCalls] calls are completed in the window that starts at
    any boundary of the run. *)
Lemma waits_window_bound (M P t0 : Z) (n : nat) (clock : list Z)
  (final : RateLimiter) (done : list (Z * RateLimiter)) (rest : list Z) :
  0 <= M ->
  ascending (t0 :: clock) ->
  waits n (newRateLimiter M P t0) clock = Some (final, done, rest) ->
  forall S, In S (boundaries t0 done) -> completedIn S P done <= M.
Proof.
  intros posM [low asc] run S inB.
  destruct (Z_lt_le_dec P 0) as [neg|posP];
    [rewrite completedIn_empty_window by exact neg; exact posM|].
  assert (windowInv M P (newRateLimiter M P t0) [] [t0] t0) as inv0.
  { unfold windowInv, newRateLimiter; simpl.
    split; [reflexivity|]. split; [reflexivity|]. split; [lia|].
    split; [unfold completedIn; simpl; lia|].
    split; [intros d []|].
    split; [|lia].
    intros S' [<-|[]]; left; reflexivity. }
  destruct (waits_windowInv M P n posP _ _ _ _ _ _ _ _ inv0 asc low run)
    as [lo' (eM & eP & [c0 cM] & count & old & bs & start)].
  assert (In S (rev (map (fun d => startTime (snd d)) done) ++ [t0])) as inB'.
  { apply in_or_app; destruct inB as [<-|inD].
    - right; left; reflexivity.
    - left; rewrite <- in_rev; exact inD. }
  destruct (bs S inB') as [->|[_ le]].
  - rewrite app_nil_r, completedIn_rev in count; lia.
  - rewrite app_nil_r, completedIn_rev in le; exact le.
Qed.

(** With room left in the window and no time elapsed, [k] calls return at
    once, each on the reading it finds. *)
Lemma waits_burst (M P t0 : Z) (k : nat) :
  0 <= P ->
  forall c rest, c + Z.of_nat k <= M ->
    exists done,
      waits k (mkRateLimiter M P c t0) (repeat t0 k ++ rest) =
        Some (mkRateLimiter M P (c + Z.of_nat k) t0, done, rest) /\
      map fst done = repeat t0 k.
Proof.
  intros posP; induction k as [|k IH]; intros c rest room.
  - exists []; simpl; rewrite Z.add_0_r; auto.
  - assert (wait (mkRateLimiter M P c t0) (t0 :: repeat t0 k ++ rest) =
            Some (mkRateLimiter M P (c + 1) t0, t0, repeat t0 k ++ rest)) as first.
    { cbn [wait]; unfold waitPass; cbn [period startTime calls maxCalls].
      replace (P <? t0 - t0) with false by (symmetry; apply Z.ltb_ge; lia).
      cbn [period startTime calls maxCalls].
      replace (c <? M) with true by (symmetry; apply Z.ltb_lt; lia).
      reflexivity. }
    destruct (IH (c + 1) rest) as [done [run times]]; [lia|].
    cbn [waits repeat app]; rewrite first, run.
    exists ((t0, mkRateLimiter M P (c + 1) t0) :: done); split.
    + replace (c + 1 + Z.of_nat k) with (c + Z.of_nat (S k)) by lia; reflexivity.
    + simpl; rewrite times; reflexivity.
Qed.

(** A call that finds the window full stays blocked on every reading inside
    the window, and returns on the first reading beyond it, in a window that
    starts there and in which it is the first call. *)
Lemma wait_full_window (M P t0 : Z) (blocked : list Z) :
  (forall b, In b blocked -> b - t0 <= P) ->
  wait (mkRateLimiter M P M t0) blocked = None /\
  forall t rest, 0 < M -> P < t - t0 ->
    wait (mkRateLimiter M P M t0) (blocked ++ t :: rest) =
      Some (mkRateLimiter M P 1 t, t, rest).
Proof.
  induction blocked as [|b blocked IH]; intros within.
  - split; [reflexivity|]; intros t rest room late.
    cbn [app wait]; unfold waitPass; cbn [period startTime calls maxCalls].
    replace (P <? t - t0) with true by (symmetry; apply Z.ltb_lt; lia).
    cbn [period startTime calls maxCalls].
    replace (0 <? M) with true by (symmetry; apply Z.ltb_lt; lia).
    reflexivity.
  - destruct IH as [still then_]; [intros; apply within; right; assumption|].
    assert (waitPass (mkRateLimiter M P M t0) b = (mkRateLimiter M P M t0, false))
      as pass.
    { unfold waitPass; cbn [period startTime calls maxCalls].
      replace (P <? b - t0) with false
        by (symmetry; apply Z.ltb_ge, within; left; reflexivity).
      rewrite Z.ltb_irrefl; reflexivity. }
    split.
    + cbn [wait]; rewrite pass; exact still.
    + intros t rest room late; cbn [app wait]; rewrite pass.
      apply then_; assumption.
Qed.

(** C2. For a limiter built with [maxCalls >= 0] and any run of [wait]
    calls on a clock that does not go back, the calls completed in the
    window [[S, S + period]] that starts at any window boundary [S] of the
    run are at most [maxCalls]. In particular, for [maxCalls > 0] and
    [period >= 0]: [maxCalls] calls made with no time elapsed each return on
    the reading they find; the next call does not return on any reading
    inside the window, and on the first reading [t] beyond it the counter
    is reset, the window restarts at [t], and the call returns as the first
    of the new window. *)
Theorem RateLimiter_wait_limits_calls (M P t0 : Z) :
  (0 <= M ->
   forall n clock final done rest,
     ascending (t0 :: clock) ->
     waits n (newRateLimiter M P t0) clock = Some (final, done, rest) ->
     forall S, In S (boundaries t0 done) -> completedIn S P done <= M) /\
  (0 < M -> 0 <= P ->
   forall blocked t rest,
     (forall b, In b blocked -> b - t0 <= P) ->
     P < t - t0 ->
     (exists done,
        waits (Z.to_nat M) (newRateLimiter M P t0)
              (repeat t0 (Z.to_nat M) ++ blocked ++ t :: rest) =
          Some (mkRateLimiter M P M t0, done, blocked ++ t :: rest) /\
        map fst done = repeat t0 (Z.to_nat M)) /\
     wait (mkRateLimiter M P M t0) blocked = None /\
     wait (mkRateLimiter M P M t0) (blocked ++ t :: rest) =
       Some (mkRateLimiter M P 1 t, t, rest)).
Proof.
  split.
  - intros posM n clock final done rest asc run.
    exact (waits_window_bound M P t0 n clock final done rest posM asc run).
  - intros room posP blocked t rest within late.
    destruct (wait_full_window M P t0 blocked within) as [still then_].
    repeat split; [|exact still | exact (then_ t rest room late)].
    destruct (waits_burst M P t0 (Z.to_nat M) posP 0 (blocked ++ t :: rest))
      as [done [run times]]; [lia|].
    exists done; split; [|exact times].
    unfold newRateLimiter; rewrite run.
    replace (0 + Z.of_nat (Z.to_nat M)) with M by lia; reflexivity.
Qed.

Lemma RateLimiter_wait_limits_calls_witness :
  completedIn 0 10 [(0, mkRateLimiter 2 10 1 0); (0, mkRateLimiter 2 10 2 0);
                    (11, mkRateLimiter 2 10 1 11)] <= 2 /\
  wait (mkRateLimiter 2 10 2 0) [5; 11; 12] = Some (mkRateLimiter 2 10 1 11, 11, [12]).
Proof.
  split.
  - apply (proj1 (RateLimiter_wait_limits_calls 2 10 0) ltac:(lia) 3%nat
             [0; 0; 5; 11; 12] (mkRateLimiter 2 10 1 11) _ [12]).
    + simpl; intuition lia.
    + reflexivity.
    + left; reflexivity.
  - refine (proj2 (proj2 (proj2 (RateLimiter_wait_limits_calls 2 10 0)
              ltac:(lia) ltac:(lia) [5] 11 [12] _ _))).
    + intros b [<-|[]]; lia.
    + lia.
Defined.

(** * Further properties *)

(** ** Shape of the indexes *)

Lemma get_In {V : Type} (d : dict V) (k : string) (v : V) :
  get d k = Some v -> In (k, v) d.
Proof.
  induction d as [|[k0 v0] d IH]; simpl; [discriminate|].
  destruct (String.eqb k0 k) eqn:E.
  - apply String.eqb_eq in E; subst k0.
    intros H; injection H as <-; left; reflexivity.
  - intros H; right; exact (IH H).
Qed.

Lemma get_absent {V : Type} (d : dict V) (k : string) :
  ~ In k (keys d) -> get d k = None.
Proof.
  induction d as [|[k0 v0] d IH]; simpl; [reflexivity|].
  intros out.
  destruct (String.eqb k0 k) eqn:E.
  - apply String.eqb_eq in E; subst k0; destruct out; left; reflexivity.
  - apply IH; intros inK; apply out; right; exact inK.
Qed.

Lemma In_get {V : Type} (d : dict V) (k : string) (v : V) :
  NoDup (keys d) -> In (k, v) d -> get d k = Some v.
Proof.
  induction d as [|[k0 v0] d IH]; simpl; [contradiction|].
  intros nd [E|inD].
  - injection E as -> ->; rewrite String.eqb_refl; reflexivity.
  - inversion nd as [|? ? out nd']; subst.
    destruct (String.eqb k0 k) eqn:E.
    + apply String.eqb_eq in E; subst k0.
      destruct out; apply (in_map fst) in inD; exact inD.
    + exact (IH nd' inD).
Qed.

Lemma setdefault_append_keys {A : Type} (d : dict (list A)) (k : string) (x : A) :
  forall k', In k' (keys (setdefault_append d k x)) <-> In k' (keys d) \/ k' = k.
Proof.
  induction d as [|[k0 b] d IH]; intros k'; simpl.
  - intuition.
  - destruct (String.eqb k0 k) eqn:E; simpl.
    + apply String.eqb_eq in E; subst k0; intuition.
    + rewrite IH; intuition.
Qed.

Lemma setdefault_append_NoDup {A : Type} (d : dict (list A)) (k : string) (x : A) :
  NoDup (keys d) -> NoDup (keys (setdefault_append d k x)).
Proof.
  induction d as [|[k0 b] d IH]; simpl; intros nd.
  - constructor; [intros [] | constructor].
  - inversion nd as [|? ? out nd']; subst.
    destruct (String.eqb k0 k) eqn:E; simpl.
    + constructor; assumption.
    + constructor; [|exact (IH nd')].
      intros inK; apply (setdefault_append_keys d k x) in inK.
      destruct inK as [inK|eq]; [exact (out inK)|].
      subst k0; rewrite String.eqb_refl in E; discriminate.
Qed.

Lemma setdefault_append_nonempty {A : Type} (d : dict (list A)) (k : string) (x : A) :
  Forall (fun item => snd item <> []) d ->
  Forall (fun item => snd item <> []) (setdefault_append d k x).
Proof.
  induction 1 as [|[k0 b] d ne all IH]; simpl.
  - constructor; [discriminate | constructor].
  - destruct (String.eqb k0 k); constructor; simpl in *; try assumption.
    destruct b; discriminate.
Qed.

Lemma setdefault_append_keys_Forall {A : Type} (P : string -> Prop)
  (d : dict (list A)) (k : string) (x : A) :
  P k -> Forall (fun item => P (fst item)) d ->
  Forall (fun item => P (fst item)) (setdefault_append d k x).
Proof.
  intros pk; induction 1 as [|[k0 b] d p0 all IH]; simpl.
  - constructor; [exact pk | constructor].
  - destruct (String.eqb k0 k); constructor; assumption.
Qed.

Lemma indexBy_wellFormed (key : Company -> string) (entry : Company -> Rec)
  (companies : list Company) :
  wellFormedIndex (indexBy key entry companies).
Proof.
  induction companies as [|company companies IH] using rev_ind.
  - split; constructor.
  - rewrite indexBy_snoc; destruct IH as [nd ne]; split.
    + apply setdefault_append_NoDup; exact nd.
    + apply setdefault_append_nonempty; exact ne.
Qed.

Lemma indexBy_keys_Forall (P : string -> Prop) (key : Company -> string)
  (entry : Company -> Rec) (companies : list Company) :
  (forall company, P (key company)) ->
  Forall (fun item => P (fst item)) (indexBy key entry companies).
Proof.
  intros pk; induction companies as [|company companies IH] using rev_ind.
  - constructor.
  - rewrite indexBy_snoc; apply setdefault_append_keys_Forall; [apply pk | exact IH].
Qed.

(** X1. Each index built by [createHashIndexes] holds every key once and no
    empty bucket, and the keys of the ticker and title indexes are in lower
    case. *)
Theorem createHashIndexes_indexes_well_formed (companyData : dict Company) :
  (wellFormedIndex (tickerIndexOf companyData) /\ lowerKeys (tickerIndexOf companyData)) /\
  (wellFormedIndex (titleIndexOf companyData) /\ lowerKeys (titleIndexOf companyData)) /\
  wellFormedIndex (cikIndexOf companyData).
Proof.
  unfold tickerIndexOf, titleIndexOf, cikIndexOf, lowerKeys.
  rewrite createHashIndexes_indexBy; simpl.
  repeat split; try apply indexBy_wellFormed;
    apply (indexBy_keys_Forall (fun k => lower k = k)); intros company;
    apply lower_idem.
Qed.

Lemma expectedBucket_holds (key : Company -> string) (entry : Company -> Rec)
  (companies : list Company) (company : Company) :
  In company companies ->
  exists found,
    expectedBucket key entry companies (key company) = Some found /\
    In (entry company) found.
Proof.
  intros inC; unfold expectedBucket.
  assert (In company (filter (fun c => String.eqb (key c) (key company)) companies))
    as inF by (apply filter_In; split; [exact inC | apply String.eqb_refl]).
  destruct (filter _ companies) as [|c found]; [contradiction|].
  eexists; split; [reflexivity|].
  apply in_map; exact inF.
Qed.

(** X2. Every company of the source mapping is found again: by
    [searchByTicker] under its ticker written in any case, and by
    [searchByCik] under the text of its [cik_str]. *)
Theorem every_company_is_found (companyData : dict Company) (company : Company) :
  In company (companiesOf companyData) ->
  (forall tickerTarget,
     lower tickerTarget = lower (ticker company) ->
     exists found,
       searchByTicker (tickerIndexOf companyData) tickerTarget = Some found /\
       In (tickerEntry company) found) /\
  (exists found,
     searchByCik (cikIndexOf companyData) (str (cik_str company)) = Some found /\
     In (cikEntry company) found).
Proof.
  intros inC; unfold searchByTicker, searchByCik, tickerIndexOf, cikIndexOf.
  rewrite createHashIndexes_indexBy; simpl.
  split.
  - intros tickerTarget same; rewrite same, indexBy_get.
    exact (expectedBucket_holds tickerKey tickerEntry _ company inC).
  - rewrite indexBy_get.
    exact (expectedBucket_holds cikKey cikEntry _ company inC).
Qed.

Lemma every_company_is_found_witness :
  exists found,
    searchByTicker (tickerIndexOf appleAndMicrosoft) "MsFt" = Some found /\
    In (mkRec (Some "Microsoft Corp") None (Some (VInt 789019))) found.
Proof.
  apply (proj1 (every_company_is_found appleAndMicrosoft
                  (mkCompany (VInt 789019) "MSFT" "Microsoft Corp")
                  (or_intror (or_introl eq_refl)))).
  reflexivity.
Defined.

(** ** Title search on its own *)

Lemma is_upper_lower_char (c : ascii) : is_upper (lower_char c) = false.
Proof.
  unfold lower_char.
  destruct (is_upper c) eqn:U; [|exact U].
  unfold is_upper, between, code in *.
  apply andb_true_iff in U; destruct U as [lo hi].
  apply Nat.leb_le in lo; apply Nat.leb_le in hi.
  rewrite nat_ascii_embedding by lia.
  apply andb_false_iff; right; apply Nat.leb_gt; lia.
Qed.

Lemma noUpper_lower (s : string) : noUpper (lower s) = true.
Proof.
  unfold noUpper; induction s as [|c s IH]; simpl; [reflexivity|].
  rewrite is_upper_lower_char, IH; reflexivity.
Qed.

Lemma titleScan_exact_no_match (titleTarget : string) (titleIndex : Index) :
  noUpper titleTarget = false ->
  forall result, fold_left (titleScan titleTarget false) titleIndex result = result.
Proof.
  intros up; induction titleIndex as [|[t companies] rest IH]; intros result; simpl;
    [reflexivity|].
  destruct (String.eqb titleTarget (lower t)) eqn:E; [|apply IH].
  apply String.eqb_eq in E; rewrite E, noUpper_lower in up; discriminate.
Qed.

(** X3. The exact title search compares the target as it is given with the
    lower-cased titles: a target with an upper-case letter finds nothing,
    whatever the index holds. *)
Theorem searchByTitle_exact_needs_lower_case_target
  (titleIndex : Index) (titleTarget : string) :
  noUpper titleTarget = false ->
  searchByTitle titleIndex titleTarget false = None.
Proof.
  intros up; unfold searchByTitle.
  rewrite titleScan_exact_no_match by exact up; reflexivity.
Qed.

Lemma searchByTitle_exact_needs_lower_case_target_witness :
  searchByTitle (titleIndexOf appleAndMicrosoft) "Apple Inc" false = None /\
  searchByTitle (titleIndexOf appleAndMicrosoft) "apple inc" false =
    Some [mkRec None (Some "AAPL") (Some (VInt 320193))].
Proof.
  split.
  - apply searchByTitle_exact_needs_lower_case_target; reflexivity.
  - reflexivity.
Defined.

Lemma titleScan_exact_bucket (titleTarget : string) (titleIndex : Index) :
  NoDup (keys titleIndex) -> lowerKeys titleIndex ->
  forall result,
    fold_left (titleScan titleTarget false) titleIndex result =
    result ++ match get titleIndex titleTarget with Some b => b | None => [] end.
Proof.
  induction titleIndex as [|[t companies] rest IH]; intros nd low result; simpl.
  - rewrite app_nil_r; reflexivity.
  - inversion nd as [|? ? out nd']; subst.
    inversion low as [|? ? lowT low']; subst; simpl in lowT.
    rewrite lowT, String.eqb_sym.
    destruct (String.eqb t titleTarget) eqn:E.
    + apply String.eqb_eq in E; subst t.
      rewrite (IH nd' low'), (get_absent rest titleTarget out), app_nil_r.
      reflexivity.
    + exact (IH nd' low' result).
Qed.

(** X4. On an index whose keys are distinct and in lower case and whose
    buckets are not empty (as [createHashIndexes] builds it), the exact title
    search is the lookup of the bucket stored under the target. *)
Theorem searchByTitle_exact_is_bucket_lookup (titleIndex : Index) (titleTarget : string) :
  wellFormedIndex titleIndex -> lowerKeys titleIndex ->
  searchByTitle titleIndex titleTarget false = get titleIndex titleTarget.
Proof.
  intros [nd ne] low; unfold searchByTitle.
  rewrite (titleScan_exact_bucket _ _ nd low); simpl.
  destruct (get titleIndex titleTarget) as [b|] eqn:G; [|reflexivity].
  apply get_In in G.
  rewrite Forall_forall in ne; specialize (ne _ G); simpl in ne.
  destruct b; [contradiction | reflexivity].
Qed.

Lemma searchByTitle_exact_is_bucket_lookup_witness :
  searchByTitle appleTitles "apple inc" false = get appleTitles "apple inc".
Proof.
  apply searchByTitle_exact_is_bucket_lookup.
  - split.
    + repeat constructor; simpl; intuition discriminate.
    + repeat constructor; discriminate.
  - repeat constructor.
Defined.

Lemma contains_empty (s : string) : contains "" s = true.
Proof. destruct s; reflexivity. Qed.

Lemma entries_concat (index : Index) :
  length (concat (map snd index)) = entries index.
Proof.
  induction index as [|[k b] index IH]; simpl; [reflexivity|].
  rewrite length_app, IH; reflexivity.
Qed.

(** X5. The partial title search with the empty target returns every record
    of the index, bucket after bucket; on the title index of a company
    mapping these are as many records as the mapping has companies. *)
Theorem searchByTitle_partial_empty_target_lists_all :
  (forall titleIndex,
     records (searchByTitle titleIndex "" true) = concat (map snd titleIndex)) /\
  (forall companyData,
     length (records (searchByTitle (titleIndexOf companyData) "" true)) =
     length companyData).
Proof.
  assert (forall titleIndex,
            records (searchByTitle titleIndex "" true) = concat (map snd titleIndex))
    as all.
  { intros titleIndex.
    rewrite searchByTitle_records, searchByTitle_partial_scan; simpl.
    f_equal; f_equal.
    induction titleIndex as [|[t b] rest IH]; simpl; [reflexivity|].
    rewrite contains_empty, IH; reflexivity. }
  split; [exact all|].
  intros companyData; rewrite all, entries_concat.
  unfold titleIndexOf; rewrite createHashIndexes_indexBy; simpl.
  rewrite indexBy_entries; unfold companiesOf; apply length_map.
Qed.

Lemma expectedBucket_members (key : Company -> string) (entry : Company -> Rec)
  (companies : list Company) (k : string) (b : list Rec) (r : Rec) :
  expectedBucket key entry companies k = Some b ->
  In r b ->
  exists company, In company companies /\ key company = k /\ r = entry company.
Proof.
  unfold expectedBucket.
  destruct (filter _ companies) as [|c found] eqn:F; [discriminate|].
  intros E inB; injection E as <-.
  change (In r (map entry (c :: found))) in inB; rewrite <- F in inB.
  apply in_map_iff in inB; destruct inB as [company [<- inF]].
  apply filter_In in inF; destruct inF as [inC eq].
  apply String.eqb_eq in eq; eauto.
Qed.

(** X6. On the title index of a company mapping, the partial title search
    returns exactly the entries of the companies whose lower-cased title
    contains the target: no other record, and none of these missing. *)
Theorem searchByTitle_partial_finds_exactly_the_matches
  (companyData : dict Company) (titleTarget : string) (r : Rec) :
  In r (records (searchByTitle (titleIndexOf companyData) titleTarget true)) <->
  exists company,
    In company (companiesOf companyData) /\
    contains titleTarget (lower (title company)) = true /\
    r = titleEntry company.
Proof.
  rewrite searchByTitle_records, searchByTitle_partial_scan; simpl.
  unfold titleIndexOf; rewrite createHashIndexes_indexBy; simpl.
  set (index := indexBy titleKey titleEntry (companiesOf companyData)).
  rewrite in_concat; split.
  - intros [b [inB inR]].
    apply in_map_iff in inB; destruct inB as [[k b'] [eq inF]]; simpl in eq; subst b'.
    apply filter_In in inF; destruct inF as [inI hit]; simpl in hit.
    apply In_get in inI; [|apply indexBy_wellFormed].
    unfold index in inI; rewrite indexBy_get in inI.
    destruct (expectedBucket_members _ _ _ _ _ _ inI inR)
      as [company [inC [eqK eqR]]].
    exists company; repeat split; try assumption.
    unfold titleKey in eqK; rewrite <- eqK, lower_idem in hit; exact hit.
  - intros [company [inC [hit ->]]].
    destruct (expectedBucket_holds titleKey titleEntry _ company inC)
      as [found [E inF]].
    rewrite <- indexBy_get in E; apply get_In in E.
    exists found; split; [|exact inF].
    apply in_map_iff; exists (titleKey company, found); split; [reflexivity|].
    apply filter_In; split; [exact E|]; simpl.
    unfold titleKey; rewrite lower_idem; exact hit.
Qed.

Lemma searchByTitle_partial_finds_exactly_the_matches_witness :
  In (mkRec None (Some "MSFT") (Some (VInt 789019)))
     (records (searchByTitle (titleIndexOf appleAndMicrosoft) "soft" true)).
Proof.
  apply (proj2 (searchByTitle_partial_finds_exactly_the_matches
                  appleAndMicrosoft "soft" _)).
  exists (mkCompany (VInt 789019) "MSFT" "Microsoft Corp").
  repeat split; right; left; reflexivity.
Defined.

(** ** The search dialogue *)



Lemma handleSearchResults_single
  (research : Index -> Index -> Index -> Out (Result Answer))
  (tickerIndex titleIndex cikIndex : Index) (userInput t k c : string)
  (stdin : list string) :
  handleSearchResults research
    (Args5 (Some (Single t k c)) tickerIndex titleIndex cikIndex userInput) stdin =
  ([], Return (Some (t, k, c))).
Proof. destruct stdin; reflexivity. Qed.




(** X8. A text that is alphanumeric, not all digits, and the ticker (in any
    case) of exactly one company resolves at once, without a further
    prompt, to that company's title, the text as the user typed it in the
    place of the ticker, and the text of the company's [cik_str]. *)
Theorem searchCompany_resolves_unique_ticker
  (companyData : dict Company) (company : Company) (raw : string) (rest : list string) :
  let userInput := strip raw in
  isdigit userInput = false ->
  isalnum userInput = true ->
  filter (fun c => String.eqb (tickerKey c) (lower userInput)) (companiesOf companyData) =
    [company] ->
  title company <> "N/A" ->
  searchCompany (tickerIndexOf companyData) (titleIndexOf companyData)
                (cikIndexOf companyData) (raw :: rest) =
  (["Searching by ticker..."],
   Return (Some (title company, userInput, str (cik_str company)))).
Proof.
  intros userInput D A only named.
  assert (get (tickerIndexOf companyData) (lower userInput) = Some [tickerEntry company])
    as hit.
  { unfold tickerIndexOf; rewrite createHashIndexes_indexBy; simpl.
    rewrite indexBy_get; unfold expectedBucket; rewrite only; reflexivity. }
  cbn [searchCompany]; fold userInput.
  unfold searchCompanyLookup, searchByTicker.
  rewrite D, A, orb_true_r, lower_idem, hit; cbn [truthy negb].
  rewrite (parseSearchResults_on_index_records userInput (tickerEntry company) []).
  - rewrite handleSearchResults_single; reflexivity.
  - constructor; [exact named | constructor].
Qed.

Lemma searchCompany_resolves_unique_ticker_witness :
  searchCompany (tickerIndexOf appleAndMicrosoft) (titleIndexOf appleAndMicrosoft)
                (cikIndexOf appleAndMicrosoft) [" Aapl "; "ignored"] =
  (["Searching by ticker..."], Return (Some ("Apple Inc", "Aapl", "320193"))).
Proof.
  apply (searchCompany_resolves_unique_ticker appleAndMicrosoft
           (mkCompany (VInt 320193) "AAPL" "Apple Inc") " Aapl " ["ignored"]);
    try reflexivity.
  discriminate.
Defined.

Lemma handleSearchResults_selects
  (research : Index -> Index -> Index -> Out (Result Answer))
  (titles tickers ciks : list string) (tickerIndex titleIndex cikIndex : Index)
  (userInput line : string) (rest : list string) (selection : Z) :
  (1 < length titles)%nat ->
  aligned titles tickers ciks ->
  int line = Some selection ->
  1 <= selection <= Z.of_nat (length titles) ->
  exists t k c,
    nth_error titles (Z.to_nat (selection - 1)) = Some t /\
    nth_error tickers (Z.to_nat (selection - 1)) = Some k /\
    nth_error ciks (Z.to_nat (selection - 1)) = Some c /\
    snd (handleSearchResults research
           (Args5 (Some (Several titles tickers ciks)) tickerIndex titleIndex cikIndex
                  userInput)
           (line :: rest)) = Return (Some (t, k, c)).
Proof.
  intros several al number range; pose proof al as [lk lc].
  set (i := Z.to_nat (selection - 1)).
  assert (i < length titles)%nat as inside by (unfold i; lia).
  destruct (nth_error titles i) as [t|] eqn:T; [|apply nth_error_None in T; lia].
  destruct (nth_error tickers i) as [k|] eqn:K; [|apply nth_error_None in K; lia].
  destruct (nth_error ciks i) as [c|] eqn:C; [|apply nth_error_None in C; lia].
  exists t, k, c; repeat split.
  simpl.
  apply Nat.ltb_lt in several; rewrite several.
  destruct (candidateLines_aligned _ _ _ al (length titles) 0%nat) as [lines E];
    [lia|].
  rewrite E, number; simpl.
  replace ((1 <=? selection) && (selection <=? Z.of_nat (length titles))) with true
    by (symmetry; apply andb_true_iff; rewrite !Z.leb_le; lia).
  fold i; rewrite T, K, C; reflexivity.
Qed.

(** X9. With several aligned candidates on display, a line that reads as a
    number between 1 and their count selects the candidate of that rank:
    its title, ticker and CIK are returned. *)
Theorem handleSearchResults_valid_selection
  (research : Index -> Index -> Index -> Out (Result Answer))
  (titles tickers ciks : list string) (tickerIndex titleIndex cikIndex : Index)
  (userInput line : string) (rest : list string) (selection : Z) :
  (1 < length titles)%nat ->
  aligned titles tickers ciks ->
  int line = Some selection ->
  1 <= selection <= Z.of_nat (length titles) ->
  exists t k c,
    nth_error titles (Z.to_nat (selection - 1)) = Some t /\
    nth_error tickers (Z.to_nat (selection - 1)) = Some k /\
    nth_error ciks (Z.to_nat (selection - 1)) = Some c /\
    snd (handleSearchResults research
           (Args5 (Some (Several titles tickers ciks)) tickerIndex titleIndex cikIndex
                  userInput)
           (line :: rest)) = Return (Some (t, k, c)).
Proof.
  intros several al number range; pose proof al as [lk lc].
  set (i := Z.to_nat (selection - 1)).
  assert (i < length titles)%nat as inside by (unfold i; lia).
  destruct (nth_error titles i) as [t|] eqn:T; [|apply nth_error_None in T; lia].
  destruct (nth_error tickers i) as [k|] eqn:K; [|apply nth_error_None in K; lia].
  destruct (nth_error ciks i) as [c|] eqn:C; [|apply nth_error_None in C; lia].
  exists t, k, c; repeat split.
  simpl.
  apply Nat.ltb_lt in several; rewrite several.
  destruct (candidateLines_aligned _ _ _ al (length titles) 0%nat) as [lines E];
    [lia|].
  rewrite E, number; simpl.
  replace ((1 <=? selection) && (selection <=? Z.of_nat (length titles))) with true
    by (symmetry; apply andb_true_iff; rewrite !Z.leb_le; lia).
  fold i; rewrite T, K, C; reflexivity.
Qed.

Lemma handleSearchResults_valid_selection_witness :
  exists t k c,
    snd (handleSearchResults (fun _ _ _ => ([], Return None))
           (Args5 twoApples [] [] [] "apple") [" 2 "]) = Return (Some (t, k, c)) /\
    (t, k, c) = ("apple", "APLE", "1418121").
Proof.
  destruct (handleSearchResults_valid_selection (fun _ _ _ => ([], Return None))
              ["apple"; "apple"] ["AAPL"; "APLE"] ["320193"; "1418121"] [] [] []
              "apple" " 2 " [] 2) as [t [k [c [T [K [C E]]]]]].
  - simpl; lia.
  - split; reflexivity.
  - reflexivity.
  - simpl; lia.
  - exists t, k, c; split; [exact E|].
    simpl in T, K, C; congruence.
Defined.

Lemma snd_emit {A : Type} (lines : list string) (o : Out A) : snd (emit lines o) = snd o.
Proof. reflexivity. Qed.

Lemma searchCompany_step (tickerIndex titleIndex cikIndex : Index) (raw : string)
  (rest : list string) :
  searchCompany tickerIndex titleIndex cikIndex (raw :: rest) =
  emit (fst (searchCompanyLookup tickerIndex titleIndex cikIndex (strip raw)))
    match parseSearchResults
            (snd (searchCompanyLookup tickerIndex titleIndex cikIndex (strip raw)))
            (strip raw) with
    | (lines, Raise e) => (lines, Raise e)
    | (lines, Return parsedResults) =>
        emit lines
          (handleSearchResults
             (fun tk ti ck => searchCompany tk ti ck rest)
             (Args5 parsedResults tickerIndex titleIndex cikIndex (strip raw))
             rest)
    end.
Proof.
  cbn [searchCompany].
  destruct (searchCompanyLookup tickerIndex titleIndex cikIndex (strip raw));
    reflexivity.
Qed.

Lemma skipn_cons_nth {A : Type} (l : list A) :
  forall (idx : nat) (x : A) (more : list A),
    skipn idx l = x :: more -> nth_error l idx = Some x /\ skipn (S idx) l = more.
Proof.
  induction l as [|y l IH]; intros [|idx] x more E; simpl in E; try discriminate.
  - injection E as -> ->; split; reflexivity.
  - exact (IH idx x more E).
Qed.

Lemma candidateLines_listing (userInput : string) (all : list Company) :
  forall (found : list Company) (idx : nat),
    skipn idx all = found ->
    candidateLines idx (length found) (map title all) (map (fun _ => userInput) all)
                   (map (fun c => str (cik_str c)) all) =
    (candidateListingFrom idx userInput found, Return tt).
Proof.
  induction found as [|company more IH]; intros idx E; [reflexivity|].
  destruct (skipn_cons_nth all idx company more E) as [here after].
  cbn [length candidateLines candidateListingFrom].
  rewrite !nth_error_map, here; cbn [option_map].
  rewrite (IH (S idx) after); reflexivity.
Qed.

Lemma handleSearchResults_selects_listed
  (research : Index -> Index -> Index -> Out (Result Answer))
  (titles tickers ciks : list string) (tickerIndex titleIndex cikIndex : Index)
  (userInput line : string) (rest lines : list string) (selection : Z)
  (t k c : string) :
  (1 < length titles)%nat ->
  candidateLines 0 (length titles) titles tickers ciks = (lines, Return tt) ->
  int line = Some selection ->
  1 <= selection <= Z.of_nat (length titles) ->
  nth_error titles (Z.to_nat (selection - 1)) = Some t ->
  nth_error tickers (Z.to_nat (selection - 1)) = Some k ->
  nth_error ciks (Z.to_nat (selection - 1)) = Some c ->
  handleSearchResults research
    (Args5 (Some (Several titles tickers ciks)) tickerIndex titleIndex cikIndex userInput)
    (line :: rest) =
  ("Multiple companies found. Please choose one by entering the corresponding number:"
     :: lines,
   Return (Some (t, k, c))).
Proof.
  intros several listed number range T K C.
  cbn [handleSearchResults].
  apply Nat.ltb_lt in several; rewrite several, listed, number.
  replace ((1 <=? selection) && (selection <=? Z.of_nat (length titles))) with true
    by (symmetry; apply andb_true_iff; rewrite !Z.leb_le; lia).
  cbv zeta; rewrite T, K, C.
  unfold tryExceptValueError, emit; cbn [fst snd app].
  rewrite app_nil_r; reflexivity.
Qed.

(** X10. When the text typed is the ticker of several companies, the
    dialogue prints the notice of the ticker search, the request to choose,
    and one numbered line for each of these companies, in source order, with
    the user's text in the place of the ticker; the number typed next then
    selects among them: the company of that rank is returned, again with the
    user's text in the place of the ticker, and nothing more is printed. *)
Theorem searchCompany_selects_among_shared_ticker
  (companyData : dict Company) (found : list Company) (raw line : string)
  (rest : list string) (selection : Z) :
  let userInput := strip raw in
  isdigit userInput = false ->
  isalnum userInput = true ->
  filter (fun c => String.eqb (tickerKey c) (lower userInput)) (companiesOf companyData) =
    found ->
  (1 < length found)%nat ->
  Forall (fun c => title c <> "N/A") found ->
  int line = Some selection ->
  1 <= selection <= Z.of_nat (length found) ->
  exists company,
    nth_error found (Z.to_nat (selection - 1)) = Some company /\
    searchCompany (tickerIndexOf companyData) (titleIndexOf companyData)
      (cikIndexOf companyData) (raw :: line :: rest) =
    ("Searching by ticker..."
       :: "Multiple companies found. Please choose one by entering the corresponding number:"
       :: candidateListing userInput found,
     Return (Some (title company, userInput, str (cik_str company)))).
Proof.
  intros userInput D A only several named number range.
  destruct (nth_error found (Z.to_nat (selection - 1))) as [company|] eqn:N;
    [|apply nth_error_None in N; lia].
  exists company; split; [reflexivity|].
  destruct found as [|c1 [|c2 more]]; simpl in several; try lia.
  set (all := c1 :: c2 :: more) in *.
  assert (get (tickerIndexOf companyData) (lower userInput) =
          Some (map tickerEntry all)) as hit.
  { unfold tickerIndexOf; rewrite createHashIndexes_indexBy; simpl.
    rewrite indexBy_get; unfold expectedBucket; rewrite only; reflexivity. }
  assert (searchCompanyLookup (tickerIndexOf companyData) (titleIndexOf companyData)
            (cikIndexOf companyData) userInput =
          (["Searching by ticker..."], Some (map tickerEntry all)))
    as looked.
  { unfold searchCompanyLookup, searchByTicker.
    rewrite D, A, orb_true_r, lower_idem, hit; reflexivity. }
  assert (parseSearchResults (Some (map tickerEntry all)) userInput =
          ([], Return (Some (Several (map title all) (map (fun _ => userInput) all)
                                     (map (fun c => str (cik_str c)) all)))))
    as parsed.
  { unfold all.
    change (map tickerEntry (c1 :: c2 :: more))
      with (tickerEntry c1 :: map tickerEntry (c2 :: more)).
    rewrite (parseSearchResults_on_index_records userInput (tickerEntry c1)
               (map tickerEntry (c2 :: more))).
    - change (tickerEntry c1 :: map tickerEntry (c2 :: more))
        with (map tickerEntry (c1 :: c2 :: more)).
      cbn [map]; rewrite !map_map; reflexivity.
    - change (Forall fromIndex (map tickerEntry (c1 :: c2 :: more))).
      apply Forall_map; revert named; apply Forall_impl; intros c ok; exact ok. }
  rewrite searchCompany_step; fold userInput; rewrite looked; cbn [fst snd].
  rewrite parsed.
  rewrite (handleSearchResults_selects_listed _ _ _ _ _ _ _ _ _ _
             (candidateListing userInput all) selection
             (title company) userInput (str (cik_str company))).
  - reflexivity.
  - rewrite length_map; unfold all; simpl; lia.
  - rewrite length_map; apply candidateLines_listing; reflexivity.
  - exact number.
  - rewrite length_map; exact range.
  - rewrite nth_error_map, N; reflexivity.
  - rewrite nth_error_map, N; reflexivity.
  - rewrite nth_error_map, N; reflexivity.
Qed.

Lemma searchCompany_selects_among_shared_ticker_witness :
  exists company,
    searchCompany (tickerIndexOf sharedTicker) (titleIndexOf sharedTicker)
      (cikIndexOf sharedTicker) ["abc"; "2"] =
    (["Searching by ticker...";
      "Multiple companies found. Please choose one by entering the corresponding number:";
      "1. Title: First Corp, Ticker: abc, CIK: 11";
      "2. Title: Second Corp, Ticker: abc, CIK: 22"],
     Return (Some (title company, "abc", str (cik_str company)))) /\
    company = mkCompany (VInt 22) "abc" "Second Corp".
Proof.
  destruct (searchCompany_selects_among_shared_ticker sharedTicker
              (companiesOf sharedTicker) "abc" "2" [] 2)
    as [company [N E]]; try reflexivity.
  - simpl; lia.
  - repeat constructor; discriminate.
  - simpl; lia.
  - exists company; split; [exact E|].
    simpl in N; congruence.
Defined.

(** X11. A text of digits that is the text of the [cik_str] of exactly one
    company resolves at once to that company's title and ticker, with the
    text typed in the place of the CIK. *)
Theorem searchCompany_resolves_unique_cik
  (companyData : dict Company) (company : Company) (raw : string) (rest : list string) :
  let userInput := strip raw in
  isdigit userInput = true ->
  filter (fun c => String.eqb (cikKey c) userInput) (companiesOf companyData) =
    [company] ->
  title company <> "N/A" ->
  ticker company <> "N/A" ->
  searchCompany (tickerIndexOf companyData) (titleIndexOf companyData)
                (cikIndexOf companyData) (raw :: rest) =
  (["Searching by CIK..."],
   Return (Some (title company, ticker company, userInput))).
Proof.
  intros userInput D only namedT namedK.
  assert (get (cikIndexOf companyData) userInput = Some [cikEntry company]) as hit.
  { unfold cikIndexOf; rewrite createHashIndexes_indexBy; simpl.
    rewrite indexBy_get; unfold expectedBucket; rewrite only; reflexivity. }
  cbn [searchCompany]; fold userInput.
  unfold searchCompanyLookup, searchByCik.
  rewrite D, hit.
  rewrite (parseSearchResults_on_index_records userInput (cikEntry company) []).
  - rewrite handleSearchResults_single; reflexivity.
  - constructor; [split; assumption | constructor].
Qed.

Lemma searchCompany_resolves_unique_cik_witness :
  searchCompany (tickerIndexOf appleAndMicrosoft) (titleIndexOf appleAndMicrosoft)
                (cikIndexOf appleAndMicrosoft) ["789019"] =
  (["Searching by CIK..."], Return (Some ("Microsoft Corp", "MSFT", "789019"))).
Proof.
  apply (searchCompany_resolves_unique_cik appleAndMicrosoft
           (mkCompany (VInt 789019) "MSFT" "Microsoft Corp") "789019" []);
    try reflexivity; discriminate.
Defined.

(** ** Correcting fact rows, further *)

Ltac row_step :=
  cbn [setFp setFrame fp frame isna isFY orb andb negb
       col_end col_val col_accn fy col_form col_filed].

Lemma correctRow_idempotent (row : Row) : correctRow (correctRow row) = correctRow row.
Proof.
  destruct row as [e v a y p fo fi fr]; unfold correctRow.
  row_step; destruct p as [q|], fr as [f|]; row_step.
  - destruct (String.eqb q "FY") eqn:E; row_step.
    + destruct (String.length f =? 6)%nat eqn:L6; row_step; [reflexivity|].
      destruct (9 <=? String.length f)%nat eqn:L9; row_step.
      * destruct (String.eqb (slice 6 8 f) "FY"); row_step;
          rewrite ?L6, ?L9; reflexivity.
      * rewrite E; row_step; rewrite L6, L9; reflexivity.
    + rewrite E; reflexivity.
  - destruct (String.eqb q "FY") eqn:E; row_step; [reflexivity|].
    rewrite E; reflexivity.
  - destruct (String.length f =? 6)%nat eqn:L6; row_step; [reflexivity|].
    destruct (9 <=? String.length f)%nat eqn:L9; row_step.
    + destruct (String.eqb (slice 6 8 f) "FY"); row_step;
        rewrite ?L6, ?L9; reflexivity.
    + rewrite L6, L9; reflexivity.
  - reflexivity.
Qed.

(** X12. Correcting a table that has been corrected changes nothing. *)
Theorem updateFyAndFrameCols_idempotent (conceptDataFrame : list Row) :
  updateFyAndFrameCols (updateFyAndFrameCols conceptDataFrame) =
  updateFyAndFrameCols conceptDataFrame.
Proof.
  unfold updateFyAndFrameCols; rewrite map_map.
  apply map_ext; exact correctRow_idempotent.
Qed.

Lemma correctRow_frame_present (row : Row) : frame (correctRow row) <> None.
Proof.
  destruct row as [e v a y p fo fi fr]; unfold correctRow.
  cbn [fp frame]; destruct p as [q|], fr as [f|]; cbn [isna isFY orb andb negb].
  - destruct (String.eqb q "FY"); cbn [orb andb negb];
      [destruct (String.length f =? 6)%nat;
         [|destruct (9 <=? String.length f)%nat]|]; discriminate.
  - destruct (String.eqb q "FY"); cbn [orb andb negb]; discriminate.
  - destruct (String.length f =? 6)%nat;
      [|destruct (9 <=? String.length f)%nat]; discriminate.
  - discriminate.
Qed.

(** X13. After the correction no row is left without a frame: a missing
    frame is always rebuilt from the fiscal year (and the period, when
    there is one other than "FY"). *)
Theorem updateFyAndFrameCols_fills_every_frame (conceptDataFrame : list Row) :
  Forall (fun row => frame row <> None) (updateFyAndFrameCols conceptDataFrame).
Proof.
  unfold updateFyAndFrameCols; apply Forall_map, Forall_forall.
  intros row _; apply correctRow_frame_present.
Qed.

Lemma correctRow_kept (row : Row) : keptByCorrection row (correctRow row).
Proof.
  destruct row as [e v a y p fo fi fr]; unfold correctRow, keptByCorrection.
  cbn [fp frame]; destruct p as [q|], fr as [f|]; cbn [isna isFY orb andb negb].
  - destruct (String.eqb q "FY") eqn:E; cbn [orb andb negb].
    + apply String.eqb_eq in E; subst q.
      destruct (String.length f =? 6)%nat;
        [|destruct (9 <=? String.length f)%nat]; simpl;
        repeat split; auto; intros q E ne; injection E as <-; destruct ne;
        reflexivity.
    + simpl; repeat split; auto.
  - destruct (String.eqb q "FY") eqn:E; cbn [orb andb negb]; simpl.
    + apply String.eqb_eq in E; subst q.
      repeat split; try discriminate.
      intros q E ne; injection E as <-; destruct ne; reflexivity.
    + repeat split; auto; discriminate.
  - destruct (String.length f =? 6)%nat;
      [|destruct (9 <=? String.length f)%nat]; simpl;
      repeat split; auto; discriminate.
  - simpl; repeat split; discriminate.
Qed.

(** X14. The correction keeps the number and the order of the rows, and in
    every row it leaves alone the six columns other than [fp] and [frame],
    a frame that is present, and a fiscal period that is present and is
    not "FY". *)
Theorem updateFyAndFrameCols_keeps_the_rest (conceptDataFrame : list Row) :
  Forall2 keptByCorrection conceptDataFrame (updateFyAndFrameCols conceptDataFrame).
Proof.
  unfold updateFyAndFrameCols.
  induction conceptDataFrame as [|row rows IH]; simpl; constructor;
    [apply correctRow_kept | exact IH].
Qed.

(** ** The rate limiter, further *)

Lemma waitPass_returns_state (self self' : RateLimiter) (t : Z) :
  waitPass self t = (self', true) ->
  maxCalls self' = maxCalls self /\ period self' = period self /\
  calls self' <= maxCalls self /\
  (0 <= calls self -> 0 < calls self').
Proof.
  unfold waitPass.
  destruct (period self <? t - startTime self); simpl.
  - destruct (0 <? maxCalls self) eqn:Z; [|discriminate].
    apply Z.ltb_lt in Z; intros E; injection E as <-; simpl; lia.
  - destruct (calls self <? maxCalls self) eqn:Z; [|discriminate].
    apply Z.ltb_lt in Z; intros E; injection E as <-; simpl; lia.
Qed.

(** X15. A limiter that allows at least one call never blocks for good: as
    soon as the clock shows a reading beyond the end of the window, [wait]
    returns, on one of the readings, with the limiter's parameters
    unchanged and its counter within the limit. *)
Theorem RateLimiter_wait_returns_after_window (self : RateLimiter) (clock : list Z) :
  0 < maxCalls self ->
  Exists (fun t => period self < t - startTime self) clock ->
  exists self' t clock',
    wait self clock = Some (self', t, clock') /\
    In t clock /\
    maxCalls self' = maxCalls self /\ period self' = period self /\
    calls self' <= maxCalls self.
Proof.
  intros room late.
  destruct (wait_returns self clock room late) as [self' [t [clock' W]]].
  exists self', t, clock'; split; [exact W|].
  destruct (wait_returned _ _ _ _ _ W) as [pass [skipped ->]].
  destruct (waitPass_returns_state _ _ _ pass) as [eM [eP [le _]]].
  repeat split; try assumption.
  apply in_or_app; right; left; reflexivity.
Qed.

Lemma RateLimiter_wait_returns_after_window_witness :
  exists self' t clock',
    wait (mkRateLimiter 10 60000 10 0) [100; 59999; 60001; 60002] =
      Some (self', t, clock') /\ In t [100; 59999; 60001; 60002].
Proof.
  destruct (RateLimiter_wait_returns_after_window (mkRateLimiter 10 60000 10 0)
              [100; 59999; 60001; 60002]) as [self' [t [clock' [W [inC _]]]]].
  - simpl; lia.
  - apply Exists_cons_tl, Exists_cons_tl, Exists_cons_hd; simpl; lia.
  - exists self', t, clock'; split; assumption.
Defined.

(** X16. A limiter built with [maxCalls <= 0] lets no call through: [wait]
    does not return on any clock, however far the readings go. *)
Theorem RateLimiter_without_calls_blocks_forever (M P t0 : Z) (clock : list Z) :
  M <= 0 ->
  wait (newRateLimiter M P t0) clock = None.
Proof.
  intros none; apply wait_never; simpl; lia.
Qed.

Lemma RateLimiter_without_calls_blocks_forever_witness :
  wait (newRateLimiter 0 60 0) [1; 61; 1000; 100000] = None.
Proof.
  apply RateLimiter_without_calls_blocks_forever; lia.
Defined.

Lemma wait_suffix (clock : list Z) (self self' : RateLimiter) (t : Z) (clock' : list Z) :
  wait self clock = Some (self', t, clock') ->
  (length clock' < length clock)%nat.
Proof.
  intros W; destruct (wait_returned _ _ _ _ _ W) as [_ [skipped ->]].
  rewrite length_app; simpl; lia.
Qed.

(** X17. Through any run of [wait] calls on a limiter whose counter lies
    between 0 and [maxCalls] (as it does after the construction), the
    parameters stay the same, the counter stays between 0 and [maxCalls],
    every call that returned is recorded, and each call consumed at least
    one clock reading. *)
Theorem RateLimiter_run_keeps_counter_in_range (M P : Z) (n : nat) :
  0 <= M ->
  forall self clock final done rest,
    maxCalls self = M -> period self = P -> 0 <= calls self <= M ->
    waits n self clock = Some (final, done, rest) ->
    maxCalls final = M /\ period final = P /\ 0 <= calls final <= M /\
    length done = n /\ (length rest + n <= length clock)%nat.
Proof.
  intros posM; induction n as [|n IH]; intros self clock final done rest eM eP range;
    simpl.
  - intros E; injection E as <- <- <-; repeat split; try assumption; lia.
  - destruct (wait self clock) as [[[s1 t] clock1]|] eqn:W; [|discriminate].
    destruct (waits n s1 clock1) as [[[final' done'] rest']|] eqn:Ws; [|discriminate].
    intros E; injection E as <- <- <-.
    pose proof (wait_suffix _ _ _ _ _ W) as shorter.
    destruct (wait_returned _ _ _ _ _ W) as [pass _].
    destruct (waitPass_returns_state _ _ _ pass) as [eM1 [eP1 [le pos]]].
    destruct (IH s1 clock1 final' done' rest') as [fM [fP [fr [len cons]]]];
      try congruence; try lia.
    repeat split; simpl; try assumption; lia.
Qed.

Lemma RateLimiter_run_keeps_counter_in_range_witness :
  exists final done rest,
    waits 3 (newRateLimiter 2 10 0) [0; 0; 5; 11; 12] = Some (final, done, rest) /\
    0 <= calls final <= 2 /\ length done = 3%nat.
Proof.
  destruct (waits 3 (newRateLimiter 2 10 0) [0; 0; 5; 11; 12])
    as [[[final done] rest]|] eqn:W; [|discriminate].
  exists final, done, rest; split; [reflexivity|].
  destruct (RateLimiter_run_keeps_counter_in_range 2 10 3 ltac:(lia)
              (newRateLimiter 2 10 0) [0; 0; 5; 11; 12] final done rest
              eq_refl eq_refl ltac:(simpl; lia) W) as [_ [_ [range [len _]]]].
  split; assumption.
Defined.

(** ** The request URL *)

Lemma length_append (s t : string) :
  String.length (s ++ t)%string = (String.length s + String.length t)%nat.
Proof. induction s as [|c s IH]; simpl; [reflexivity | rewrite IH; reflexivity]. Qed.

Lemma length_zeros (n : nat) : String.length (zeros n) = n.
Proof. induction n as [|n IH]; simpl; [reflexivity | rewrite IH; reflexivity]. Qed.

Lemma all_chars_append (p : ascii -> bool) (s t : string) :
  all_chars p (s ++ t)%string = all_chars p s && all_chars p t.
Proof.
  induction s as [|c s IH]; simpl; [reflexivity|].
  rewrite IH, andb_assoc; reflexivity.
Qed.

Lemma all_digit_zeros (n : nat) : all_chars is_digit (zeros n) = true.
Proof. induction n as [|n IH]; simpl; [reflexivity | exact IH]. Qed.

Lemma digit_not_int_space (c : ascii) : is_digit c = true -> is_int_space c = false.
Proof.
  unfold is_digit, is_int_space, between; intros D.
  apply andb_true_iff in D; destruct D as [lo hi].
  apply Nat.leb_le in lo; apply Nat.leb_le in hi.
  apply orb_false_iff; split; apply andb_false_iff.
  - right; apply Nat.leb_gt; lia.
  - right; apply Nat.leb_gt; lia.
Qed.

Lemma digit_not_sign (c : ascii) :
  is_digit c = true -> Ascii.eqb c "+" || Ascii.eqb c "-" = false.
Proof.
  intros D; apply orb_false_iff; split; apply Ascii.eqb_neq; intros ->;
    discriminate D.
Qed.

Lemma int_rstrip_digits (s : string) :
  all_chars is_digit s = true -> int_rstrip s = s.
Proof.
  induction s as [|c s IH]; simpl; [reflexivity|].
  intros D; apply andb_true_iff in D; destruct D as [d ds].
  rewrite (IH ds), (digit_not_int_space c d); destruct s; reflexivity.
Qed.

Lemma int_strip_digits (s : string) :
  all_chars is_digit s = true -> int_rstrip (int_lstrip s) = s.
Proof.
  intros D.
  assert (int_lstrip s = s) as ->.
  { destruct s as [|c s]; simpl in *; [reflexivity|].
    apply andb_true_iff in D; destruct D as [d _].
    rewrite (digit_not_int_space c d); reflexivity. }
  apply int_rstrip_digits; exact D.
Qed.

Lemma digitCount_digits (s : string) :
  all_chars is_digit s = true -> digitCount s = Z.of_nat (String.length s).
Proof.
  induction s as [|c s IH]; [reflexivity|].
  cbn [all_chars digitCount String.length]; intros D.
  apply andb_true_iff in D; destruct D as [d ds].
  rewrite d, (IH ds); lia.
Qed.

(** [int] of a text of digits within the limit reads the digits, without
    sign. *)
Lemma int_of_digits (s : string) :
  isdigit s = true -> Z.of_nat (String.length s) <= maxStrDigits ->
  int s = int_digits s 0 false.
Proof.
  unfold isdigit, int; intros D short.
  apply andb_true_iff in D; destruct D as [_ D].
  rewrite (digitCount_digits s D).
  apply Z.leb_le in short; rewrite short.
  rewrite (int_strip_digits s D).
  destruct s as [|c s]; [reflexivity|].
  simpl in D; apply andb_true_iff in D; destruct D as [d _].
  destruct c as [[] [] [] [] [] [] [] []]; try discriminate d; reflexivity.
Qed.

Lemma int_digits_led (c : ascii) (s : string) (acc : Z) (prev : bool) :
  is_digit c = true ->
  int_digits (String c s) acc prev = int_digits s (10 * acc + digit_val c) true.
Proof. intros d; simpl; rewrite d; reflexivity. Qed.

Lemma int_digits_zeros (n : nat) (s : string) :
  isdigit s = true ->
  forall prev, int_digits (zeros n ++ s) 0 prev = int_digits s 0 false.
Proof.
  intros D; induction n as [|n IH]; intros prev.
  - unfold isdigit in D; apply andb_true_iff in D; destruct D as [ne D].
    destruct s as [|c s]; [discriminate|]; simpl in D.
    apply andb_true_iff in D; destruct D as [d _].
    change (zeros 0 ++ String c s)%string with (String c s).
    rewrite !int_digits_led by exact d; reflexivity.
  - change (zeros (S n) ++ s)%string with (String "0" (zeros n ++ s)).
    rewrite int_digits_led by reflexivity.
    change (10 * 0 + digit_val "0") with 0; apply IH.
Qed.

Lemma zfill_digits (width : nat) (s : string) :
  isdigit s = true ->
  zfill width s = (zeros (width - String.length s) ++ s)%string.
Proof.
  unfold isdigit, zfill; intros D.
  apply andb_true_iff in D; destruct D as [ne D].
  destruct (width <=? String.length s)%nat eqn:W.
  - apply Nat.leb_le in W.
    replace (width - String.length s)%nat with 0%nat by lia; reflexivity.
  - destruct s as [|c s]; [discriminate|]; simpl in D.
    apply andb_true_iff in D; destruct D as [d _].
    rewrite (digit_not_sign c d); reflexivity.
Qed.

Lemma prefix_placeholder (c : ascii) (s : string) :
  Ascii.eqb c "#" = false -> String.prefix cikPlaceholder (String c s) = false.
Proof.
  intros ne; unfold cikPlaceholder; cbn [String.prefix].
  destruct (ascii_dec "#" c) as [<-|_]; [discriminate ne | reflexivity].
Qed.

Lemma replaceScan_before (new pre rest : string) :
  noHash pre = true ->
  replaceScan cikPlaceholder new 0 (pre ++ rest) =
  (pre ++ replaceScan cikPlaceholder new 0 rest)%string.
Proof.
  unfold noHash; induction pre as [|c pre IH]; intros clean; [reflexivity|].
  simpl in clean; apply andb_true_iff in clean; destruct clean as [ne clean].
  apply negb_true_iff in ne.
  change (String c pre ++ rest)%string with (String c (pre ++ rest)).
  cbn [replaceScan]; rewrite (prefix_placeholder c _ ne), (IH clean); reflexivity.
Qed.

Lemma replaceScan_clean (new s : string) :
  noHash s = true -> replaceScan cikPlaceholder new 0 s = s.
Proof.
  intros clean.
  pose proof (replaceScan_before new s "" clean) as E.
  assert (forall t : string, (t ++ "")%string = t) as nil_r
    by (induction t as [|c t IH]; simpl; [reflexivity | rewrite IH; reflexivity]).
  rewrite !nil_r in E; exact E.
Qed.

Lemma prefix_append (old rest : string) : String.prefix old (old ++ rest) = true.
Proof.
  induction old as [|a old IH]; [destruct rest; reflexivity|].
  change (String a old ++ rest)%string with (String a (old ++ rest)).
  cbn [String.prefix].
  destruct (ascii_dec a a) as [_|ne]; [exact IH | congruence].
Qed.

Lemma replaceScan_skip (old new passed rest : string) :
  replaceScan old new (String.length passed) (passed ++ rest) =
  replaceScan old new 0 rest.
Proof.
  induction passed as [|c passed IH]; [reflexivity|].
  change (String c passed ++ rest)%string with (String c (passed ++ rest)).
  cbn [String.length replaceScan]; exact IH.
Qed.

Lemma replaceScan_placeholder (new post : string) :
  replaceScan cikPlaceholder new 0 (cikPlaceholder ++ post) =
  (new ++ replaceScan cikPlaceholder new 0 post)%string.
Proof.
  pose proof (prefix_append cikPlaceholder post) as hit.
  pose proof (replaceScan_skip cikPlaceholder new "#########" post) as skip.
  unfold cikPlaceholder in *.
  change ("##########" ++ post)%string with (String "#" ("#########" ++ post)) in *.
  cbn [replaceScan]; rewrite hit.
  change (String.length "##########" - 1)%nat with (String.length "#########").
  rewrite skip; reflexivity.
Qed.

(** X19. The URL asked for. Where the base URL is a text without ['#']
    around one placeholder of ten ['#'], a non-empty CIK replaces the
    placeholder by its form padded to ten characters and leaves the rest as
    it is; a base URL without ['#'] is unchanged; and when the CIK is left
    out or empty the base URL is used as it is, placeholder included. *)
Theorem requestUrl_fills_the_placeholder (pre post cik : string) :
  noHash pre = true -> noHash post = true -> cik <> "" ->
  requestUrl (pre ++ cikPlaceholder ++ post) (Some cik) =
    (pre ++ zfill 10 cik ++ post)%string /\
  requestUrl pre (Some cik) = pre /\
  (forall baseUrl, requestUrl baseUrl None = baseUrl /\
                   requestUrl baseUrl (Some "") = baseUrl).
Proof.
  intros cleanPre cleanPost given.
  assert (forall baseUrl,
            requestUrl baseUrl (Some cik) =
            replaceScan cikPlaceholder (zfill 10 cik) 0 baseUrl) as url
    by (intros baseUrl; destruct cik; [contradiction | reflexivity]).
  repeat split.
  - rewrite url, (replaceScan_before _ _ _ cleanPre), replaceScan_placeholder,
      (replaceScan_clean _ _ cleanPost); reflexivity.
  - rewrite url; apply replaceScan_clean; exact cleanPre.
Qed.

Lemma requestUrl_fills_the_placeholder_witness :
  requestUrl "https://data.sec.gov/submissions/CIK##########.json" (Some "320193") =
  "https://data.sec.gov/submissions/CIK0000320193.json".
Proof.
  refine (eq_trans
    (proj1 (requestUrl_fills_the_placeholder "https://data.sec.gov/submissions/CIK"
              ".json" "320193" eq_refl eq_refl _)) eq_refl).
  discriminate.
Defined.

(** X18. The URL asks for the CIK that was given: for a CIK of at most ten
    digits and a base URL without ['#'] around the placeholder, what
    replaces the placeholder is a text of exactly ten digits that reads as
    the same number as the CIK. *)
Theorem requestUrl_asks_for_the_same_cik (pre post cik : string) :
  noHash pre = true -> noHash post = true ->
  isdigit cik = true -> (String.length cik <= 10)%nat ->
  exists padded,
    requestUrl (pre ++ cikPlaceholder ++ post) (Some cik) =
      (pre ++ padded ++ post)%string /\
    String.length padded = 10%nat /\
    isdigit padded = true /\
    int padded = int cik.
Proof.
  intros cleanPre cleanPost D short.
  exists (zfill 10 cik).
  assert (cik <> "") as given by (intros ->; discriminate D).
  assert (requestUrl (pre ++ cikPlaceholder ++ post) (Some cik) =
          replaceScan cikPlaceholder (zfill 10 cik) 0 (pre ++ cikPlaceholder ++ post))
    as url by (destruct cik; [contradiction | reflexivity]).
  rewrite url, (replaceScan_before _ _ _ cleanPre), replaceScan_placeholder,
    (replaceScan_clean _ _ cleanPost).
  split; [reflexivity|].
  rewrite (zfill_digits 10 cik D).
  assert (String.length (zeros (10 - String.length cik) ++ cik) = 10%nat) as len
    by (rewrite length_append, length_zeros; lia).
  assert (isdigit (zeros (10 - String.length cik) ++ cik) = true) as padded.
  { unfold isdigit in *; apply andb_true_iff in D; destruct D as [ne D].
    rewrite all_chars_append, all_digit_zeros, D, andb_true_r.
    destruct (zeros (10 - String.length cik)); [exact ne | reflexivity]. }
  repeat split; try assumption.
  rewrite (int_of_digits _ padded), (int_of_digits _ D);
    try (unfold maxStrDigits; lia).
  apply int_digits_zeros; exact D.
Qed.

Lemma requestUrl_asks_for_the_same_cik_witness :
  exists padded,
    requestUrl "https://data.sec.gov/submissions/CIK##########.json" (Some "320193") =
      ("https://data.sec.gov/submissions/CIK" ++ padded ++ ".json")%string /\
    int padded = Some 320193.
Proof.
  destruct (requestUrl_asks_for_the_same_cik "https://data.sec.gov/submissions/CIK"
              ".json" "320193" eq_refl eq_refl eq_refl ltac:(simpl; lia))
    as [padded [url [_ [_ same]]]].
  exists padded; split; [exact url | rewrite same; reflexivity].
Defined.

(** ** Requests through the shared client *)

Lemma makeRequest_later (reply : Result Response) (now : Z) (clock1 : list Z)
  (h : Heap) (c a : nat) (l : RateLimiter) :
  _instance h = Some c ->
  rateLimiterOf h c = Some a ->
  nth_error (limiters h) a = Some l ->
  makeRequest reply (now :: clock1) h =
  match wait l clock1 with
  | None => None
  | Some (l', _, clock2) =>
      Some (replyValue reply, clock2,
            mkHeap (update (limiters h ++ [newRateLimiter 10 (60 * ticksPerSecond) now])
                           a l')
                   (clients h) (Some c))
  end.
Proof.
  intros inst field stored.
  unfold makeRequest, allocRateLimiter, EdgarClient_new; cbn [_instance].
  rewrite inst; unfold get_data.
  change (rateLimiterOf (mkHeap (limiters h ++ [newRateLimiter 10 (60 * ticksPerSecond) now])
                                (clients h) (Some c)) c)
    with (rateLimiterOf h c).
  rewrite field; cbn [limiters clients _instance].
  rewrite nth_error_app1 by (apply nth_error_Some; rewrite stored; discriminate).
  rewrite stored.
  destruct (wait l clock1) as [[[l' t] clock2]|]; [|reflexivity].
  destruct reply as [response|e]; [|reflexivity]; simpl.
  destruct (status_code response =? 200); simpl; [|reflexivity].
  destruct (json response); reflexivity.
Qed.

(** X20. The first request of a process creates the client and its limiter
    and goes through at once, on the reading that follows the construction:
    it returns the body parsed from a response of status 200 and [None] for
    any other response and for any exception, never raising; the limiter
    has then counted one call. *)
Theorem makeRequest_first_request_goes_through
  (reply : Result Response) (now t : Z) (rest : list Z) (h : Heap) :
  _instance h = None ->
  exists h' limiter,
    makeRequest reply (now :: t :: rest) h = Some (replyValue reply, rest, h') /\
    _instance h' = Some (length (clients h)) /\
    rateLimiterOf h' (length (clients h)) = Some (length (limiters h)) /\
    nth_error (limiters h') (length (limiters h)) = Some limiter /\
    maxCalls limiter = 10 /\ period limiter = 60 * ticksPerSecond /\
    calls limiter = 1.
Proof.
  intros fresh.
  assert (forall l (x y : RateLimiter),
            nth_error (update (l ++ [x]) (length l) y) (length l) = Some y) as stored.
  { induction l as [|z l IH]; intros x y; simpl; [reflexivity | apply IH]. }
  assert (exists limiter,
            waitPass (newRateLimiter 10 (60 * ticksPerSecond) now) t = (limiter, true) /\
            maxCalls limiter = 10 /\ period limiter = 60 * ticksPerSecond /\
            calls limiter = 1) as [limiter [pass [eM [eP eC]]]].
  { unfold waitPass, newRateLimiter; cbn [period startTime calls maxCalls].
    destruct (60 * ticksPerSecond <? t - now); eexists; split; try reflexivity;
      repeat split. }
  exists (mkHeap (update (limiters h ++ [newRateLimiter 10 (60 * ticksPerSecond) now])
                         (length (limiters h)) limiter)
                 (clients h ++ [mkEdgarClient (Some (length (limiters h)))])
                 (Some (length (clients h)))), limiter.
  split; [|cbn [_instance clients limiters]].
  - unfold makeRequest, allocRateLimiter, EdgarClient_new;
      cbn [_instance clients limiters].
    rewrite fresh; unfold get_data, rateLimiterOf; cbn [_instance clients limiters].
    rewrite nth_error_app2, Nat.sub_diag by lia; cbn [nth_error rateLimiter].
    rewrite nth_error_app2, Nat.sub_diag by lia; cbn [nth_error wait].
    rewrite pass.
    destruct reply as [response|e]; [|reflexivity]; simpl.
    destruct (status_code response =? 200); simpl; [|reflexivity].
    destruct (json response); reflexivity.
  - unfold rateLimiterOf; cbn [_instance clients limiters].
    rewrite nth_error_app2, Nat.sub_diag, stored by lia; repeat split; assumption.
Qed.

Lemma makeRequest_first_request_goes_through_witness :
  exists h',
    makeRequest (Return (mkResponse 503 (Raise JSONDecodeError))) [0; 1; 2] emptyHeap =
    Some (JNull, [2], h').
Proof.
  destruct (makeRequest_first_request_goes_through
              (Return (mkResponse 503 (Raise JSONDecodeError))) 0 1 [2] emptyHeap eq_refl)
    as [h' [limiter [E _]]].
  exists h'; exact E.
Defined.

(** X21. Every later request builds a limiter that nobody uses and waits on
    the limiter of the first construction: it is blocked exactly when that
    limiter blocks, and when it returns the client is the same, only that
    limiter has moved on, and the value is the parsed body for status 200
    and [None] otherwise. *)
Theorem makeRequest_waits_on_the_first_limiter
  (reply : Result Response) (now : Z) (clock1 : list Z) (h : Heap) (c a : nat)
  (l : RateLimiter) :
  _instance h = Some c ->
  rateLimiterOf h c = Some a ->
  nth_error (limiters h) a = Some l ->
  (wait l clock1 = None -> makeRequest reply (now :: clock1) h = None) /\
  (forall l' t clock2,
     wait l clock1 = Some (l', t, clock2) ->
     makeRequest reply (now :: clock1) h =
     Some (replyValue reply, clock2,
           mkHeap (update (limiters h ++ [newRateLimiter 10 (60 * ticksPerSecond) now])
                          a l')
                  (clients h) (Some c))).
Proof.
  intros inst field stored.
  rewrite (makeRequest_later reply now clock1 h c a l inst field stored).
  split.
  - intros ->; reflexivity.
  - intros l' t clock2 ->; reflexivity.
Qed.

Lemma makeRequest_waits_on_the_first_limiter_witness :
  makeRequest (Return (mkResponse 200 (Return (JStr "ok")))) [100; 200; 60001] busyHeap =
  Some (JStr "ok", [],
        mkHeap [mkRateLimiter 10 60000 1 60001; newRateLimiter 10 60000 100]
               [mkEdgarClient (Some 0%nat)] (Some 0%nat)).
Proof.
  apply (proj2 (makeRequest_waits_on_the_first_limiter
                  (Return (mkResponse 200 (Return (JStr "ok")))) 100 [200; 60001]
                  busyHeap 0%nat 0%nat (mkRateLimiter 10 60000 10 0)
                  eq_refl eq_refl eq_refl)
           (mkRateLimiter 10 60000 1 60001) 60001 []).
  reflexivity.
Defined.

(** X22. Once the shared limiter has counted its ten calls in a window, a
    further request does not return as long as the readings stay within the
    sixty seconds of that window, whatever the network would answer; on the
    first reading beyond them it returns and the limiter starts a new
    window there, with this request as its first call. *)
Theorem makeRequest_eleventh_request_waits_for_the_window
  (reply : Result Response) (now t0 : Z) (blocked : list Z) (h : Heap) (c a : nat) :
  _instance h = Some c ->
  rateLimiterOf h c = Some a ->
  nth_error (limiters h) a = Some (mkRateLimiter 10 (60 * ticksPerSecond) 10 t0) ->
  (forall b, In b blocked -> b - t0 <= 60 * ticksPerSecond) ->
  makeRequest reply (now :: blocked) h = None /\
  forall t rest,
    60 * ticksPerSecond < t - t0 ->
    makeRequest reply (now :: blocked ++ t :: rest) h =
    Some (replyValue reply, rest,
          mkHeap (update (limiters h ++ [newRateLimiter 10 (60 * ticksPerSecond) now])
                         a (mkRateLimiter 10 (60 * ticksPerSecond) 1 t))
                 (clients h) (Some c)).
Proof.
  intros inst field stored within.
  destruct (wait_full_window 10 (60 * ticksPerSecond) t0 blocked within)
    as [still then_].
  split.
  - rewrite (makeRequest_later reply now blocked h c a _ inst field stored), still.
    reflexivity.
  - intros t rest late.
    rewrite (makeRequest_later reply now _ h c a _ inst field stored).
    rewrite (then_ t rest ltac:(lia) late); reflexivity.
Qed.

Lemma makeRequest_eleventh_request_waits_for_the_window_witness :
  makeRequest (Return (mkResponse 200 (Return (JStr "ok")))) [100; 200; 60000] busyHeap =
  None.
Proof.
  apply (proj1 (makeRequest_eleventh_request_waits_for_the_window
                  (Return (mkResponse 200 (Return (JStr "ok")))) 100 0 [200; 60000]
                  busyHeap 0%nat 0%nat eq_refl eq_refl eq_refl
                  ltac:(intros b [<-|[<-|[]]]; vm_compute; discriminate))).
Defined.

(** ** Browsing: the sorted table *)

Lemma leb_refl (s : string) : String.leb s s = true.
Proof. destruct (String.leb_total s s); assumption. Qed.

Lemma insertRow_perm (row : TableRow) (sorted : list TableRow) :
  Permutation (row :: sorted) (insertRow row sorted).
Proof.
  induction sorted as [|other rest IH]; simpl; [apply Permutation_refl|].
  destruct (String.leb (sortKey row) (sortKey other)); [apply Permutation_refl|].
  eapply Permutation_trans; [apply perm_swap|].
  apply perm_skip; exact IH.
Qed.

Lemma sortAllCompanies_perm (allCompanies : list TableRow) :
  Permutation allCompanies (sortAllCompanies allCompanies).
Proof.
  induction allCompanies as [|row rest IH]; simpl; [constructor|].
  eapply Permutation_trans; [apply perm_skip; exact IH | apply insertRow_perm].
Qed.

Lemma insertRow_hd (row x : TableRow) (sorted : list TableRow) :
  keyLe x row -> HdRel keyLe x sorted -> HdRel keyLe x (insertRow row sorted).
Proof.
  intros le hd; destruct sorted as [|other rest]; simpl; [constructor; exact le|].
  destruct (String.leb (sortKey row) (sortKey other)); constructor;
    [exact le | inversion hd; assumption].
Qed.

Lemma insertRow_sorted (row : TableRow) (sorted : list TableRow) :
  Sorted keyLe sorted -> Sorted keyLe (insertRow row sorted).
Proof.
  induction 1 as [|other rest srt IH hd]; simpl.
  - constructor; constructor.
  - destruct (String.leb (sortKey row) (sortKey other)) eqn:E.
    + constructor; [constructor; assumption | constructor; exact E].
    + constructor; [exact IH|].
      apply insertRow_hd; [|exact hd].
      destruct (String.leb_total (sortKey row) (sortKey other)) as [le|le];
        [congruence | exact le].
Qed.

Lemma insertRow_same_key (k : string) (row : TableRow) (sorted : list TableRow) :
  filter (fun r => String.eqb (sortKey r) k) (insertRow row sorted) =
  filter (fun r => String.eqb (sortKey r) k) (row :: sorted).
Proof.
  induction sorted as [|other rest IH]; [reflexivity|].
  cbn [insertRow].
  destruct (String.leb (sortKey row) (sortKey other)) eqn:E; [reflexivity|].
  cbn [filter] in *; rewrite IH.
  destruct (String.eqb (sortKey row) k) eqn:R; [|reflexivity].
  destruct (String.eqb (sortKey other) k) eqn:O; [|reflexivity].
  apply String.eqb_eq in R; apply String.eqb_eq in O.
  rewrite R, O, leb_refl in E; discriminate.
Qed.

(** X23. [sortAllCompanies] returns the same rows, in ascending order of
    the lower-cased title, and keeps the rows that share a lower-cased
    title in the order they came in. *)
Theorem sortAllCompanies_sorts_stably (allCompanies : list TableRow) :
  Permutation allCompanies (sortAllCompanies allCompanies) /\
  Sorted keyLe (sortAllCompanies allCompanies) /\
  forall k,
    filter (fun r => String.eqb (sortKey r) k) (sortAllCompanies allCompanies) =
    filter (fun r => String.eqb (sortKey r) k) allCompanies.
Proof.
  split; [apply sortAllCompanies_perm | split].
  - induction allCompanies as [|row rest IH]; simpl; [constructor|].
    apply insertRow_sorted; exact IH.
  - intros k; induction allCompanies as [|row rest IH]; [reflexivity|].
    change (sortAllCompanies (row :: rest))
      with (insertRow row (sortAllCompanies rest)).
    rewrite insertRow_same_key; cbn [filter]; rewrite IH; reflexivity.
Qed.

(** ** Browsing: pages *)

Lemma totalPagesOf_bounds (totalCompanies screenHeight : Z) :
  0 < screenHeight -> 0 <= totalCompanies ->
  0 <= totalPagesOf totalCompanies screenHeight /\
  (totalPagesOf totalCompanies screenHeight - 1) * screenHeight < totalCompanies /\
  totalCompanies <= totalPagesOf totalCompanies screenHeight * screenHeight.
Proof.
  intros posH posN; unfold totalPagesOf.
  pose proof (Z.div_mod totalCompanies screenHeight ltac:(lia)) as dm.
  pose proof (Z.mod_pos_bound totalCompanies screenHeight posH) as bound.
  pose proof (Z.div_pos totalCompanies screenHeight posN posH) as q.
  destruct (0 <? totalCompanies mod screenHeight) eqn:R.
  - apply Z.ltb_lt in R; nia.
  - apply Z.ltb_ge in R; nia.
Qed.

(** X24. For a positive page height, the number of pages is the quotient
    of the number of companies by the height, rounded up: the pages before
    the last do not hold all the companies, and all the pages do. *)
Theorem totalPagesOf_rounds_up (totalCompanies screenHeight : Z) :
  0 < screenHeight -> 0 <= totalCompanies ->
  0 <= totalPagesOf totalCompanies screenHeight /\
  (totalPagesOf totalCompanies screenHeight - 1) * screenHeight < totalCompanies /\
  totalCompanies <= totalPagesOf totalCompanies screenHeight * screenHeight.
Proof.
  intros posH posN; unfold totalPagesOf.
  pose proof (Z.div_mod totalCompanies screenHeight ltac:(lia)) as dm.
  pose proof (Z.mod_pos_bound totalCompanies screenHeight posH) as bound.
  pose proof (Z.div_pos totalCompanies screenHeight posN posH) as q.
  destruct (0 <? totalCompanies mod screenHeight) eqn:R.
  - apply Z.ltb_lt in R; nia.
  - apply Z.ltb_ge in R; nia.
Qed.

Lemma totalPagesOf_rounds_up_witness :
  totalPagesOf 5 2 = 3 /\ (3 - 1) * 2 < 5 <= 3 * 2.
Proof.
  pose proof (totalPagesOf_rounds_up 5 2 ltac:(lia) ltac:(lia)) as H.
  split; [reflexivity|].
  change (totalPagesOf 5 2) with 3 in H; lia.
Defined.

Lemma numbered_app (a b : list TableRow) :
  forall base,
    numbered base (a ++ b) = numbered base a ++ numbered (base + Z.of_nat (length a)) b.
Proof.
  induction a as [|row a IH]; intros base; simpl numbered; simpl app.
  - simpl; rewrite Z.add_0_r; reflexivity.
  - rewrite IH; simpl length.
    replace (base + 1 + Z.of_nat (length a)) with (base + Z.of_nat (S (length a)))
      by lia.
    reflexivity.
Qed.

Lemma pageRows_chunk (companiesSorted : list TableRow) (screenHeight currentPage : Z) :
  0 < screenHeight -> 0 <= currentPage ->
  currentPage * screenHeight <= Z.of_nat (length companiesSorted) ->
  pageRows companiesSorted screenHeight currentPage =
  numbered (currentPage * screenHeight)
           (firstn (Z.to_nat screenHeight)
                   (skipn (Z.to_nat (currentPage * screenHeight)) companiesSorted)).
Proof.
  intros posH posP inside; unfold pageRows, pySlice, sliceBound.
  set (n := Z.of_nat (length companiesSorted)) in *.
  set (s := currentPage * screenHeight) in *.
  assert (0 <= s) as posS by (unfold s; nia).
  replace (s <? 0) with false by (symmetry; apply Z.ltb_ge; lia).
  replace (Z.min (s + screenHeight) n <? 0) with false
    by (symmetry; apply Z.ltb_ge; lia).
  rewrite (Z.min_l s n) by lia.
  rewrite (Z.min_l (Z.min (s + screenHeight) n) n) by lia.
  f_equal.
  destruct (Z_le_gt_dec (s + screenHeight) n) as [full|short].
  - rewrite Z.min_l by lia; f_equal; lia.
  - rewrite Z.min_r by lia.
    assert (length (skipn (Z.to_nat s) companiesSorted) = Z.to_nat (n - s)) as len
      by (rewrite length_skipn; unfold n; lia).
    rewrite !firstn_all2; try reflexivity; rewrite len; lia.
Qed.

Lemma chunks_cover (h : nat) (k : nat) :
  (0 < h)%nat ->
  forall (l : list TableRow) (base : Z),
    (length l <= k * h)%nat ->
    concat (map (fun p => numbered (base + Z.of_nat (p * h))
                                   (firstn h (skipn (p * h) l)))
                (seq 0 k)) =
    numbered base l.
Proof.
  intros posH; induction k as [|k IH]; intros l base short.
  - destruct l; [reflexivity | simpl in short; lia].
  - cbn [seq map concat].
    rewrite <- seq_shift, map_map.
    rewrite (map_ext _ (fun p => numbered (base + Z.of_nat h + Z.of_nat (p * h))
                                          (firstn h (skipn (p * h) (skipn h l))))).
    + rewrite (IH (skipn h l) (base + Z.of_nat h))
        by (rewrite length_skipn; lia).
      simpl Nat.mul; simpl skipn; rewrite Z.add_0_r.
      rewrite <- (firstn_skipn h l) at 3.
      rewrite numbered_app.
      destruct (Nat.le_gt_cases h (length l)) as [long|tiny].
      * rewrite length_firstn, Nat.min_l by exact long; reflexivity.
      * rewrite (skipn_all2 l) by lia; simpl; reflexivity.
    + intros p; rewrite skipn_skipn.
      replace (S p * h)%nat with (p * h + h)%nat by lia.
      f_equal; lia.
Qed.

(** X25. For a positive page height, the pages one after the other show
    every company of the sorted table exactly once, in order, each under
    its row number counted from 1 over the whole table. *)
Theorem pages_show_every_company_once (companiesSorted : list TableRow) (screenHeight : Z) :
  0 < screenHeight ->
  concat (map (pageRows companiesSorted screenHeight)
              (pageNumbers (totalPagesOf (Z.of_nat (length companiesSorted))
                                         screenHeight))) =
  numbered 0 companiesSorted.
Proof.
  intros posH.
  set (n := Z.of_nat (length companiesSorted)).
  destruct (totalPagesOf_bounds n screenHeight posH ltac:(unfold n; lia))
    as [posT [below above]].
  set (total := totalPagesOf n screenHeight) in *.
  unfold pageNumbers; rewrite map_map.
  rewrite <- (chunks_cover (Z.to_nat screenHeight) (Z.to_nat total) ltac:(lia)
                companiesSorted 0) by (unfold n in above; nia).
  f_equal; apply map_ext_in; intros p inP.
  apply in_seq in inP.
  rewrite pageRows_chunk; try lia.
  - f_equal; [lia|].
    f_equal; f_equal; nia.
  - fold n; nia.
Qed.

Lemma pages_show_every_company_once_witness :
  concat (map (pageRows [("a", "A", VInt 1); ("b", "B", VInt 2); ("c", "C", VInt 3)] 2)
              [0; 1]) =
  [(1, ("a", "A", VInt 1)); (2, ("b", "B", VInt 2)); (3, ("c", "C", VInt 3))].
Proof.
  exact (pages_show_every_company_once
           [("a", "A", VInt 1); ("b", "B", VInt 2); ("c", "C", VInt 3)] 2 ltac:(lia)).
Defined.

(** ** Browsing: the dialogue *)

Lemma digits_not_word (action : string) :
  isdigit action = true ->
  String.eqb action "next" = false /\ String.eqb action "back" = false.
Proof.
  intros D; split; apply String.eqb_neq; intros ->; discriminate D.
Qed.

Lemma browseLoop_pages (companiesSorted : list TableRow) (screenHeight totalPages : Z)
  (stdin : list string) :
  forall currentPage,
    0 <= currentPage -> (currentPage < totalPages \/ currentPage = 0) ->
    Forall (pageInOrder companiesSorted screenHeight totalPages)
           (fst (browseLoop companiesSorted screenHeight totalPages currentPage stdin)).
Proof.
  induction stdin as [|line rest IH]; intros p pos range.
  - cbn [browseLoop fst]; constructor; [|constructor].
    repeat split; assumption.
  - assert (pageInOrder companiesSorted screenHeight totalPages
              (Page p totalPages (pageRows companiesSorted screenHeight p))) as here
      by (repeat split; assumption).
    cbn [browseLoop].
    destruct (String.eqb (lower (strip line)) "next" && (p <? totalPages - 1)) eqn:N.
    { apply andb_true_iff in N; destruct N as [_ N]; apply Z.ltb_lt in N.
      specialize (IH (p + 1) ltac:(lia) ltac:(lia)).
      destruct (browseLoop companiesSorted screenHeight totalPages (p + 1) rest).
      simpl in *; constructor; assumption. }
    destruct (String.eqb (lower (strip line)) "back" && (0 <? p)) eqn:B.
    { apply andb_true_iff in B; destruct B as [_ B]; apply Z.ltb_lt in B.
      specialize (IH (p - 1) ltac:(lia) ltac:(lia)).
      destruct (browseLoop companiesSorted screenHeight totalPages (p - 1) rest).
      simpl in *; constructor; assumption. }
    specialize (IH p pos range).
    destruct (browseLoop companiesSorted screenHeight totalPages p rest);
      simpl in IH.
    assert (forall outcome : Browsed,
              Forall (pageInOrder companiesSorted screenHeight totalPages)
                (fst ([Page p totalPages (pageRows companiesSorted screenHeight p)],
                      outcome))) as ends
      by (intros outcome; simpl; constructor; [exact here | constructor]).
    destruct (isdigit (lower (strip line))).
    + destruct (int (lower (strip line))) as [selection|]; [|apply ends].
      destruct ((1 <=? selection) && (selection <=? Z.of_nat (length companiesSorted))).
      * destruct (nth_error companiesSorted (Z.to_nat (selection - 1))); apply ends.
      * simpl; constructor; [exact here|]; constructor; [exact I | exact IH].
    + simpl; constructor; [exact here|]; constructor; [exact I | exact IH].
Qed.

(** X26. Whatever the user types while browsing, every page shown is a
    page of the table: its number is never negative and never reaches the
    number of pages (it stays at zero when there is no page at all), and
    its rows are those of that page. *)
Theorem browseAllCompanies_pages_stay_in_range
  (titleIndex : Index) (terminal : option Z) (stdin : list string) :
  let companiesSorted := sortAllCompanies (allCompaniesOf titleIndex) in
  let screenHeight := getTerminalHeight terminal in
  Forall (pageInOrder companiesSorted screenHeight
            (totalPagesOf (Z.of_nat (length companiesSorted)) screenHeight))
         (fst (browseAllCompanies titleIndex terminal stdin)).
Proof.
  intros companiesSorted screenHeight; unfold browseAllCompanies.
  fold companiesSorted; fold screenHeight.
  destruct (screenHeight =? 0); [constructor|].
  apply browseLoop_pages; [lia | right; reflexivity].
Qed.

(** X27. A row number typed while browsing is taken over the whole table,
    whatever page is on display: a line that reads, once stripped, as a
    number between 1 and the number of companies ends the browsing with the
    company of that rank in the sorted table. *)
Theorem browseLoop_row_number_is_global
  (companiesSorted : list TableRow) (screenHeight totalPages currentPage : Z)
  (line : string) (rest : list string) (selection : Z) (row : TableRow) :
  isdigit (lower (strip line)) = true ->
  int (lower (strip line)) = Some selection ->
  1 <= selection ->
  nth_error companiesSorted (Z.to_nat (selection - 1)) = Some row ->
  browseLoop companiesSorted screenHeight totalPages currentPage (line :: rest) =
  ([Page currentPage totalPages (pageRows companiesSorted screenHeight currentPage)],
   Chosen row).
Proof.
  intros D number pos found.
  destruct (digits_not_word _ D) as [notNext notBack].
  cbn [browseLoop]; rewrite notNext, notBack, D, number, found.
  cbn [andb].
  assert (Z.to_nat (selection - 1) < length companiesSorted)%nat as inside
    by (apply nth_error_Some; rewrite found; discriminate).
  replace ((1 <=? selection) && (selection <=? Z.of_nat (length companiesSorted)))
    with true by (symmetry; apply andb_true_iff; rewrite !Z.leb_le; lia).
  destruct (browseLoop companiesSorted screenHeight totalPages currentPage rest);
    reflexivity.
Qed.

Lemma browseLoop_row_number_is_global_witness :
  browseLoop [("a", "A", VInt 1); ("b", "B", VInt 2); ("c", "C", VInt 3)] 2 2 0
             [" 3 "; "next"] =
  ([Page 0 2 [(1, ("a", "A", VInt 1)); (2, ("b", "B", VInt 2))]],
   Chosen ("c", "C", VInt 3)).
Proof.
  apply (browseLoop_row_number_is_global
           [("a", "A", VInt 1); ("b", "B", VInt 2); ("c", "C", VInt 3)] 2 2 0
           " 3 " ["next"] 3); try reflexivity; lia.
Defined.

Lemma browseLoop_outcome (companiesSorted : list TableRow) (screenHeight totalPages : Z)
  (stdin : list string) :
  forall currentPage,
    match snd (browseLoop companiesSorted screenHeight totalPages currentPage stdin) with
    | Chosen row => In row companiesSorted
    | Failed _ => True
    | ZeroDivisionError => False
    end.
Proof.
  induction stdin as [|line rest IH]; intros p; [exact I|].
  cbn [browseLoop].
  pose proof (IH (p + 1)) as next; pose proof (IH (p - 1)) as back;
    pose proof (IH p) as same.
  destruct (browseLoop companiesSorted screenHeight totalPages (p + 1) rest).
  destruct (browseLoop companiesSorted screenHeight totalPages (p - 1) rest).
  destruct (browseLoop companiesSorted screenHeight totalPages p rest).
  destruct (String.eqb (lower (strip line)) "next" && (p <? totalPages - 1));
    [exact next|].
  destruct (String.eqb (lower (strip line)) "back" && (0 <? p)); [exact back|].
  destruct (isdigit (lower (strip line))); [|exact same].
  destruct (int (lower (strip line))) as [selection|]; [|exact I].
  destruct ((1 <=? selection) && (selection <=? Z.of_nat (length companiesSorted)));
    [|exact same].
  destruct (nth_error companiesSorted (Z.to_nat (selection - 1))) as [row|] eqn:E;
    [|exact I].
  exact (nth_error_In _ _ E).
Qed.

(** X28. The company chosen by browsing the title index of a company
    mapping is one of its companies, returned as the lower-cased title, the
    ticker as stored and the [cik_str] as stored (not its text). *)
Theorem browseAllCompanies_chooses_a_company
  (companyData : dict Company) (terminal : option Z) (stdin : list string)
  (row : TableRow) :
  snd (browseAllCompanies (titleIndexOf companyData) terminal stdin) = Chosen row ->
  exists company,
    In company (companiesOf companyData) /\
    row = (lower (title company), ticker company, cik_str company).
Proof.
  unfold browseAllCompanies.
  destruct (getTerminalHeight terminal =? 0); [discriminate|].
  intros E.
  pose proof (browseLoop_outcome
                (sortAllCompanies (allCompaniesOf (titleIndexOf companyData)))
                (getTerminalHeight terminal)
                (totalPagesOf
                   (Z.of_nat (length (sortAllCompanies
                                        (allCompaniesOf (titleIndexOf companyData)))))
                   (getTerminalHeight terminal)) stdin 0) as inS.
  rewrite E in inS.
  apply (Permutation_in _ (Permutation_sym (sortAllCompanies_perm _))) in inS.
  unfold allCompaniesOf in inS; apply in_flat_map in inS.
  destruct inS as [[k b] [inI inB]]; simpl in inB.
  apply in_map_iff in inB; destruct inB as [r [<- inR]].
  unfold titleIndexOf in inI; rewrite createHashIndexes_indexBy in inI; simpl in inI.
  apply In_get in inI; [|apply indexBy_wellFormed].
  rewrite indexBy_get in inI.
  destruct (expectedBucket_members _ _ _ _ _ _ inI inR) as [company [inC [<- ->]]].
  exists company; split; [exact inC | reflexivity].
Qed.

Lemma browseAllCompanies_chooses_a_company_witness :
  exists company,
    In company (companiesOf appleAndMicrosoft) /\
    ("apple inc", "AAPL", VInt 320193) =
    (lower (title company), ticker company, cik_str company).
Proof.
  apply (browseAllCompanies_chooses_a_company appleAndMicrosoft None ["next"; "1"]).
  reflexivity.
Defined.

(** X29. Browsing ends with [ZeroDivisionError] exactly when the page
    height is zero, that is when the terminal reports two lines; in that
    case nothing is shown and nothing is read. *)
Theorem browseAllCompanies_divides_by_the_page_height
  (titleIndex : Index) (terminal : option Z) (stdin : list string) :
  (snd (browseAllCompanies titleIndex terminal stdin) = ZeroDivisionError <->
   terminal = Some 2) /\
  (terminal = Some 2 ->
   browseAllCompanies titleIndex terminal stdin = ([], ZeroDivisionError)).
Proof.
  unfold browseAllCompanies.
  destruct (getTerminalHeight terminal =? 0) eqn:Z.
  - apply Z.eqb_eq in Z.
    assert (terminal = Some 2) as two
      by (destruct terminal as [lines|]; simpl in Z; [f_equal; lia | discriminate]).
    repeat split; auto.
  - apply Z.eqb_neq in Z.
    assert (terminal <> Some 2) as other by (intros ->; apply Z; reflexivity).
    split; [split|]; try (intros; contradiction).
    intros E.
    pose proof (browseLoop_outcome
                  (sortAllCompanies (allCompaniesOf titleIndex))
                  (getTerminalHeight terminal)
                  (totalPagesOf
                     (Z.of_nat (length (sortAllCompanies (allCompaniesOf titleIndex))))
                     (getTerminalHeight terminal)) stdin 0) as out.
    rewrite E in out; contradiction.
Qed.

Lemma browseAllCompanies_divides_by_the_page_height_witness :
  browseAllCompanies (titleIndexOf appleAndMicrosoft) (Some 2) ["1"] =
  ([], ZeroDivisionError).
Proof.
  apply (proj2 (browseAllCompanies_divides_by_the_page_height
                  (titleIndexOf appleAndMicrosoft) (Some 2) ["1"])).
  reflexivity.
Defined.
